(** * Poker engine: Kev bitmask evaluator, prime-product cache, equity tools

    A shallow embedding of [evaluate.service] (card encoder, 5-card
    evaluator, 7-card selector, Monte-Carlo equity estimators) and the
    properties of the engine's specification, proved or refuted on it.

    Conventions of the embedding.
    - JavaScript numbers that hold integers are [Z] (bit-level values)
      or [nat] (counters, indices); every integer the engine builds stays
      far below 2^31, so the 32-bit bitwise operators and the binary64
      product are exact (see [encodeCard_range], [primeProduct_hand_bound]).
    - The percentages are binary64 values, modelled with primitive floats.
    - The module-level [PRIME_LOOKUP] map and the stream behind
      [Math.random] form the state of the process, threaded by the [JS]
      monad; a JavaScript exception is the outcome [Thrown]. *)

From Stdlib Require Import ZArith Znumtheory List Permutation Lia.
From Stdlib Require Import Ascii String BinaryString Decimal DecimalString DecimalNat.
From Stdlib Require Import PrimFloat FloatOps SpecFloat Uint63.
From stdpp Require Import base option list sorting gmap strings.

Local Open Scope Z_scope.

(* ================================================================= *)
(** * Part I: the program *)

(* ================================================================= *)
(** ** JavaScript primitives used by the engine *)

Module JSArray.

(** [arr[i]] on an array of numbers, read by a bitwise operator or a
    multiplication after [& 0xff]: an index past the end gives
    [undefined], which [ToInt32] turns into 0. *)
Definition at_int32 (arr : list Z) (i : nat) : Z := nth i arr 0.

(** [Array.prototype.slice(start, end)]: a negative bound counts from
    the end of the array, both bounds are clamped to [0, length]. *)
Definition relative (len k : Z) : Z :=
  if k <? 0 then Z.max (len + k) 0 else Z.min k len.

Definition slice {A} (arr : list A) (start end_ : Z) : list A :=
  let len := Z.of_nat (length arr) in
  let k := relative len start in
  let final := relative len end_ in
  take (Z.to_nat (Z.max (final - k) 0)) (drop (Z.to_nat k) arr).

(** [Array.prototype.indexOf]: position of the first strictly equal
    element, or -1. *)
Fixpoint indexOf_from {A} `{EqDecision A} (arr : list A) (x : A) (i : Z) : Z :=
  match arr with
  | [] => -1
  | y :: arr' => if decide (y = x) then i else indexOf_from arr' x (i + 1)
  end.

Definition indexOf {A} `{EqDecision A} (arr : list A) (x : A) : Z :=
  indexOf_from arr x 0.

(** [Number.prototype.toString] on a non-negative integer. *)
Definition Number_toString (n : nat) : string :=
  NilZero.string_of_uint (Nat.to_uint n).

(** [Array.prototype.sort()] without a comparator: the elements are
    compared as strings, by code units, ascending. *)
Definition sort_le (x y : nat) : Prop :=
  String.leb (Number_toString x) (Number_toString y) = true.

Global Instance sort_le_dec : RelDecision sort_le.
Proof. intros x y. unfold sort_le. apply _. Defined.

Definition sort (arr : list nat) : list nat := merge_sort sort_le arr.

(** [Array.prototype.join(sep)] on an array of numbers. *)
Definition join (sep : string) (arr : list nat) : string :=
  String.concat sep (map Number_toString arr).

(** [Object.values(o)] for an object whose keys are array indices:
    own properties are listed in ascending numeric key order. *)
Definition key_le (p q : nat * nat) : Prop := (p.1 <= q.1)%nat.

Global Instance key_le_dec : RelDecision key_le.
Proof. intros p q. unfold key_le. apply _. Defined.

Definition Object_values (o : gmap nat nat) : list nat :=
  (merge_sort key_le (map_to_list o)).*2.

End JSArray.

(* ================================================================= *)
(** ** Cards *)

(** Modelled from the spec: the [Card] type of [@poker/types] is not part
    of the sources; the data model gives it as a rank among the 13 symbols
    2..10, J, Q, K, A and a suit among the four suit symbols. *)
Inductive Rank : Set :=
  R2 | R3 | R4 | R5 | R6 | R7 | R8 | R9 | R10 | RJ | RQ | RK | RA.

Inductive Suit : Set := Clubs | Diamonds | Hearts | Spades.

Record Card : Set := mkCard { rank : Rank; suit : Suit }.

Global Instance Rank_eq_dec : EqDecision Rank.
Proof. solve_decision. Defined.
Global Instance Suit_eq_dec : EqDecision Suit.
Proof. solve_decision. Defined.
Global Instance Card_eq_dec : EqDecision Card.
Proof. solve_decision. Defined.

Declare Scope card_scope.
Delimit Scope card_scope with card.
Notation "r ♣" := (mkCard r Clubs) (at level 1, format "r ♣") : card_scope.
Notation "r ♦" := (mkCard r Diamonds) (at level 1, format "r ♦") : card_scope.
Notation "r ♥" := (mkCard r Hearts) (at level 1, format "r ♥") : card_scope.
Notation "r ♠" := (mkCard r Spades) (at level 1, format "r ♠") : card_scope.
Local Open Scope card_scope.

(* ================================================================= *)
(** ** Rank / prime / bit definitions *)

Definition RANKS : list Rank :=
  [R2; R3; R4; R5; R6; R7; R8; R9; R10; RJ; RQ; RK; RA].

Definition PRIMES : list Z := [2; 3; 5; 7; 11; 13; 17; 19; 23; 29; 31; 37; 41].

(** [rankIndex[r]]: the table filled by [RANKS.forEach((r, i) => ...)]. *)
Definition rankIndex (r : Rank) : nat :=
  match r with
  | R2 => 0 | R3 => 1 | R4 => 2 | R5 => 3 | R6 => 4 | R7 => 5 | R8 => 6
  | R9 => 7 | R10 => 8 | RJ => 9 | RQ => 10 | RK => 11 | RA => 12
  end%nat.

Definition SUIT_MASK (s : Suit) : Z :=
  match s with
  | Clubs => 0x8000
  | Diamonds => 0x4000
  | Hearts => 0x2000
  | Spades => 0x1000
  end.

(* ================================================================= *)
(** ** Card encoder (Kev structure) *)

Definition encodeCard (c : Card) : Z :=
  let r := rankIndex (rank c) in
  let prime := nth r PRIMES 0 in
  let rank := Z.shiftl (Z.of_nat r) 8 in
  let suit := SUIT_MASK (suit c) in
  let bit := Z.shiftl 1 (Z.of_nat r) in
  Z.lor (Z.lor (Z.lor prime rank) suit) (Z.shiftl bit 16).

(* ================================================================= *)
(** ** Straight bitmask table *)

(** A binary literal [0b...], written [0b "..."]. *)
Definition binary_literal (digits : string) : Z :=
  Z.of_N (BinaryString.Raw.to_N digits 0).
Notation "0b" := binary_literal (only parsing).

Definition STRAIGHTS : list Z :=
  [ 0b "1111100000000";
    0b "0111110000000";
    0b "0011111000000";
    0b "0001111100000";
    0b "0000111110000";
    0b "0000011111000";
    0b "0000001111100";
    0b "0000000111110";
    0b "0000000011111";
    0b "1000000001111" (* wheel *) ].

Definition isStraightMask (mask : Z) : bool :=
  existsb (fun s => Z.land mask s =? s) STRAIGHTS.

(* ================================================================= *)
(** ** Rank classes and the count-pattern classifier *)

Inductive RankClass : Set :=
  | HIGH | PAIR | TWOPAIR | TRIPS | STRAIGHT | FLUSH | FULLHOUSE | QUADS
  | STRAIGHTFLUSH.

Global Instance RankClass_eq_dec : EqDecision RankClass.
Proof. solve_decision. Defined.

(** The string each member of the union type is at run time. *)
Definition RankClass_literal (r : RankClass) : string :=
  match r with
  | HIGH => "HIGH" | PAIR => "PAIR" | TWOPAIR => "TWOPAIR" | TRIPS => "TRIPS"
  | STRAIGHT => "STRAIGHT" | FLUSH => "FLUSH" | FULLHOUSE => "FULLHOUSE"
  | QUADS => "QUADS" | STRAIGHTFLUSH => "STRAIGHTFLUSH"
  end.

(** [Object.values(counts).sort().join(',')]. *)
Definition countPattern (counts : gmap nat nat) : string :=
  JSArray.join "," (JSArray.sort (JSArray.Object_values counts)).

Definition classifyByCounts (counts : gmap nat nat) : RankClass :=
  let pattern := countPattern counts in
  if String.eqb pattern "4,1" then QUADS
  else if String.eqb pattern "3,2" then FULLHOUSE
  else if String.eqb pattern "3,1,1" then TRIPS
  else if String.eqb pattern "2,2,1" then TWOPAIR
  else if String.eqb pattern "2,1,1,1" then PAIR
  else HIGH.

(* ================================================================= *)
(** ** The process: lookup table, randomness, exceptions *)

(** What a call can raise.  The source has no [throw] statement: the only
    exception a call can meet is the [TypeError] of the JavaScript
    run-time.  The other four are the error kinds of the specification;
    no statement of the source raises them. *)
Inductive Failure : Set :=
  | TypeError | InvalidCard | InvalidHandSize | DuplicateCard | DeckExhausted.

Inductive Outcome (A : Type) : Type :=
  | Returned (a : A)
  | Thrown (e : Failure).
Arguments Returned {A} a.
Arguments Thrown {A} e.

(** [PRIME_LOOKUP] is the module-level [Map<number, RankClass>];
    [entropy] is the stream of draws that [Math.random] will deliver. *)
Record Process : Type := mkProcess {
  PRIME_LOOKUP : gmap Z RankClass;
  entropy : nat → nat
}.

Definition JS (A : Type) : Type := Process → Outcome A * Process.

Global Instance JS_ret : MRet JS := λ A a p, (Returned a, p).

Global Instance JS_bind : MBind JS := λ A B k m p,
  match m p with
  | (Returned a, p') => k a p'
  | (Thrown e, p') => (Thrown e, p')
  end.

Definition throw {A} (e : Failure) : JS A := λ p, (Thrown e, p).

Definition PRIME_LOOKUP_get (key : Z) : JS (option RankClass) :=
  λ p, (Returned (PRIME_LOOKUP p !! key), p).

Definition PRIME_LOOKUP_set (key : Z) (cls : RankClass) : JS unit :=
  λ p, (Returned (), mkProcess (<[key := cls]> (PRIME_LOOKUP p)) (entropy p)).

(** A process at start-up: the table is empty. *)
Definition startup (draws : nat → nat) : Process := mkProcess ∅ draws.

(** [for (let i = 0; i < n; i++) body], the body updating loop-carried
    variables of type [S]. *)
Fixpoint for_upto {S} (n : nat) (body : S → JS S) (s : S) : JS S :=
  match n with
  | O => mret s
  | S n' => s' ← body s; for_upto n' body s'
  end.

(** [for (const x of arr) body]. *)
Fixpoint for_of {A S} (arr : list A) (body : A → S → JS S) (s : S) : JS S :=
  match arr with
  | [] => mret s
  | x :: arr' => s' ← body x s; for_of arr' body s'
  end.

(* ================================================================= *)
(** ** 5-card Kev evaluator *)

Definition suitAND (ints : list Z) : Z :=
  let at_ := JSArray.at_int32 ints in
  Z.land (Z.land (Z.land (Z.land (at_ 0%nat) (at_ 1%nat)) (at_ 2%nat)) (at_ 3%nat))
         (at_ 4%nat).

Definition rankMask (ints : list Z) : Z :=
  let at_ := JSArray.at_int32 ints in
  Z.shiftr
    (Z.lor (Z.lor (Z.lor (Z.lor (at_ 0%nat) (at_ 1%nat)) (at_ 2%nat)) (at_ 3%nat))
           (at_ 4%nat))
    16.

Definition primeProduct (ints : list Z) : Z :=
  let at_ := JSArray.at_int32 ints in
  Z.land (at_ 0%nat) 0xff * Z.land (at_ 1%nat) 0xff * Z.land (at_ 2%nat) 0xff
  * Z.land (at_ 3%nat) 0xff * Z.land (at_ 4%nat) 0xff.

(** [cards.forEach(c => { counts[r] = (counts[r] || 0) + 1 })]. *)
Definition countRank (counts : gmap nat nat) (c : Card) : gmap nat nat :=
  let r := rankIndex (rank c) in
  <[r := (default 0 (counts !! r) + 1)%nat]> counts.

Definition buildCounts (cards : list Card) : gmap nat nat :=
  foldl countRank ∅ cards.

Definition evaluate5Kev (cards : list Card) : JS RankClass :=
  let ints := map encodeCard cards in
  let flush := negb (Z.land (suitAND ints) 0xf000 =? 0) in
  let straight := isStraightMask (rankMask ints) in
  if straight && flush then mret STRAIGHTFLUSH
  else if flush then mret FLUSH
  else if straight then mret STRAIGHT
  else
    let product := primeProduct ints in
    cached ← PRIME_LOOKUP_get product;
    match cached with
    | Some cls => mret cls
    | None =>
        let cls := classifyByCounts (buildCounts cards) in
        _ ← PRIME_LOOKUP_set product cls;
        mret cls
    end.

(* ================================================================= *)
(** ** 7-card selector *)

(** [helper(s, c)] of [combinations(arr, k)]; [rest] is [arr] from index
    [s] on, and the result is the list of arrays pushed on [res], in
    order.  [helper_loop] is the [for] loop of [helper]. *)
Fixpoint helper_loop {T} (k : nat) (rest : list T) (c : list T) : list (list T) :=
  match rest with
  | [] => []
  | x :: rest' =>
      (if decide (length (c ++ [x]) = k) then [c ++ [x]]
       else helper_loop k rest' (c ++ [x]))
      ++ helper_loop k rest' c
  end.

Definition helper {T} (k : nat) (rest : list T) (c : list T) : list (list T) :=
  if decide (length c = k) then [c] else helper_loop k rest c.

Definition combinations {T} (arr : list T) (k : nat) : list (list T) :=
  helper k arr [].

Definition RANK_ORDER : list RankClass :=
  [HIGH; PAIR; TWOPAIR; TRIPS; STRAIGHT; FLUSH; FULLHOUSE; QUADS; STRAIGHTFLUSH].

Definition evaluate7Perfect (cards : list Card) : JS RankClass :=
  let all := combinations cards 5 in
  let rankOrder := RANK_ORDER in
  for_of all
    (λ c best,
       r ← evaluate5Kev c;
       mret (if JSArray.indexOf rankOrder best <? JSArray.indexOf rankOrder r
             then r else best))
    HIGH.

(* ================================================================= *)
(** ** Randomness *)

Definition advance (n : nat) (p : Process) : Process :=
  mkProcess (PRIME_LOOKUP p) (λ i, entropy p (n + i)%nat).

(** [Math.floor(Math.random() * n)]: the next draw, brought below [n];
    0 when [n] is 0. *)
Definition Math_random_below (n : nat) : JS nat :=
  λ p, (Returned (match n with O => O | _ => entropy p 0 mod n end)%nat,
        advance 1 p).

(** [[...arr].sort(() => Math.random() - 0.5)].  The comparator is not
    consistent, so the order of the result is left to the implementation;
    it is an arrangement of the same elements.  The model lets the draws
    pick the arrangement: each element is put at a drawn position among
    those already placed, which reaches every arrangement. *)
Definition insert_at {A} (i : nat) (x : A) (arr : list A) : list A :=
  take i arr ++ x :: drop i arr.

Fixpoint arrange {A} (draws : nat → nat) (arr : list A) : list A :=
  match arr with
  | [] => []
  | x :: arr' =>
      let placed := arrange (λ i, draws (S i)) arr' in
      insert_at (draws O mod S (length placed)) x placed
  end.

Definition shuffle {A} (arr : list A) : JS (list A) :=
  λ p, (Returned (arrange (entropy p) arr), advance (length arr) p).

(* ================================================================= *)
(** ** Equity, range vs range *)

Definition RangeHand : Set := Card * Card.

(** [[...hand]] for a hand read from an array: spreading [undefined]
    raises a [TypeError]. *)
Definition spread (hand : option RangeHand) : JS (list Card) :=
  match hand with
  | Some (c1, c2) => mret [c1; c2]
  | None => throw TypeError
  end.

(** [u.rank === c.rank && u.suit === c.suit]. *)
Definition same_card (u c : Card) : bool :=
  bool_decide (rank u = rank c) && bool_decide (suit u = suit c).

(** [deck.filter(c => !used.some(u => ...))]; the two other estimators
    write the same filter in line, on [FULL_DECK]. *)
Definition removeUsed (deck used : list Card) : list Card :=
  List.filter (λ c, negb (existsb (λ u, same_card u c) used)) deck.

(** The object [{ heroWin, villainWin, tie }]; the three result types of
    the source share field names, which carry a prefix here where they
    would clash. *)
Record RangeEquity : Set := mkRangeEquity {
  range_heroWin : nat;
  range_villainWin : nat;
  range_tie : nat
}.

(** [a > b] on two rank classes: the operands are strings, compared by
    code units. *)
Definition string_gt (a b : RankClass) : bool :=
  String.ltb (RankClass_literal b) (RankClass_literal a).

Definition equityRangeVsRange (heroRange villainRange : list RangeHand)
    (board deck : list Card) (iterations : nat) : JS RangeEquity :=
  for_upto iterations
    (λ acc,
       i ← Math_random_below (length heroRange);
       let hero := heroRange !! i in
       j ← Math_random_below (length villainRange);
       let villain := villainRange !! j in
       heroCards ← spread hero;
       villainCards ← spread villain;
       let used := heroCards ++ villainCards ++ board in
       let rem := removeUsed deck used in
       shuffled ← shuffle rem;
       let need := 5 - Z.of_nat (length board) in
       let fullBoard := board ++ JSArray.slice shuffled 0 need in
       heroRank ← evaluate7Perfect (heroCards ++ fullBoard);
       villainRank ← evaluate7Perfect (villainCards ++ fullBoard);
       mret (if decide (heroRank = villainRank)
             then mkRangeEquity (range_heroWin acc) (range_villainWin acc)
                                (S (range_tie acc))
             else if string_gt heroRank villainRank
             then mkRangeEquity (S (range_heroWin acc)) (range_villainWin acc)
                                (range_tie acc)
             else mkRangeEquity (range_heroWin acc) (S (range_villainWin acc))
                                (range_tie acc)))
    (mkRangeEquity 0 0 0).

(* ================================================================= *)
(** ** Percentages *)

Module JSNumber.

(** The number a counter holds.  Counters are integers below 2^53 in
    every run that ends, so the conversion is exact. *)
Definition of_nat (n : nat) : float :=
  SF2Prim (binary_normalize prec emax (Z.of_nat n) 0 false).

(** [x.toFixed(2)] picks the integer [n] for which [n / 100 - x] is
    closest to zero, the larger one if there are two; [x] is
    [m * 2^e]. *)
Definition hundredths (m : positive) (e : Z) : Z :=
  if 0 <=? e then 100 * Z.pos m * 2 ^ e
  else (200 * Z.pos m + 2 ^ (- e)) / 2 ^ (1 - e).

(** [Number(x.toFixed(2))]: the binary64 value nearest to [n / 100].
    [NaN] and the infinities print and read back as themselves.  The
    division is the correctly rounded one, which is the value [Number]
    reads, as long as [n] is below 2^53. *)
Definition Number_toFixed2 (x : float) : float :=
  match Prim2SF x with
  | S754_finite s m e =>
      let v := (SF2Prim (binary_normalize prec emax (hundredths m e) 0 false)
                / 100)%float in
      if s then (- v)%float else v
  | S754_zero _ => 0%float
  | _ => x
  end.

(** [Number(((count / total) * 100).toFixed(2))]. *)
Definition percentage (count total : nat) : float :=
  Number_toFixed2 ((of_nat count / of_nat total) * 100)%float.

End JSNumber.

(* ================================================================= *)
(** ** Preflop heatmap generator *)

Module Heatmap.

(** [Number(x.toFixed(3))], as [JSNumber.Number_toFixed2] with three
    decimals: [x] is [m * 2^e], and [toFixed(3)] picks the integer [n]
    for which [n / 1000 - x] is closest to zero, the larger one if
    there are two. *)
Definition thousandths (m : positive) (e : Z) : Z :=
  if 0 <=? e then 1000 * Z.pos m * 2 ^ e
  else (2000 * Z.pos m + 2 ^ (- e)) / 2 ^ (1 - e).

Definition Number_toFixed3 (x : float) : float :=
  match Prim2SF x with
  | S754_finite s m e =>
      let v := (SF2Prim (binary_normalize prec emax (thousandths m e) 0 false)
                / 1000)%float in
      if s then (- v)%float else v
  | S754_zero _ => 0%float
  | _ => x
  end.

(** The indices [12, 11, ..., 0] of the two [for] loops. *)
Definition descending : list nat := rev (seq 0 13).

(** The cell pushed for [i] and [j]. *)
Definition cell (i j : nat) : float :=
  let suited := (i <? j)%nat in
  let strength :=
    (JSNumber.of_nat (i + j + (if suited then 2 else 0)) / 30)%float in
  Number_toFixed3 strength.

Definition generatePreflopHeatmap : list (list float) :=
  map (λ i, map (λ j, cell i j) descending) descending.

End Heatmap.

(* ================================================================= *)
(** ** Equity, hero hand against an unknown hand *)

Record EquityResult : Set := mkEquityResult {
  win : nat;
  lose : nat;
  tie : nat;
  winPct : float;
  losePct : float;
  tiePct : float
}.

Definition SUITS : list Suit := [Clubs; Diamonds; Hearts; Spades].

Definition FULL_DECK : list Card :=
  flat_map (λ s, map (λ r, mkCard r s) RANKS) SUITS.

(** The three counters a trial loop carries: [win], [lose], [tie], or
    [heroWin], [villainWin], [tie]. *)
Record Tally : Set := mkTally { first : nat; second : nat; third : nat }.

Definition calculateHandEquity (heroHole : Card * Card) (board : list Card)
    (iterations : nat) : JS EquityResult :=
  t ← for_upto iterations
    (λ acc,
       let used := [heroHole.1; heroHole.2] ++ board in
       let deck := removeUsed FULL_DECK used in
       shuffled ← shuffle deck;
       let need := 5 - Z.of_nat (length board) in
       let runout := JSArray.slice shuffled 2 (2 + need) in
       let fullBoard := board ++ runout in
       heroRank ← evaluate7Perfect ([heroHole.1; heroHole.2] ++ fullBoard);
       villainRank ←
         match shuffled with
         | v0 :: v1 :: _ => evaluate7Perfect ([v0; v1] ++ fullBoard)
         | _ =>
             (* a hole card is [undefined]: with five entries or more the
                first five-card subset reaches [encodeCard(undefined)],
                with fewer there is no subset to evaluate *)
             if decide (5 ≤ 2 + length fullBoard)%nat then throw TypeError
             else mret HIGH
         end;
       let order := RANK_ORDER in
       let h := JSArray.indexOf order heroRank in
       let v := JSArray.indexOf order villainRank in
       mret (if v <? h then mkTally (S (first acc)) (second acc) (third acc)
             else if h <? v then mkTally (first acc) (S (second acc)) (third acc)
             else mkTally (first acc) (second acc) (S (third acc))))
    (mkTally 0 0 0);
  let total := (first t + second t + third t)%nat in
  mret (mkEquityResult (first t) (second t) (third t)
          (JSNumber.percentage (first t) total)
          (JSNumber.percentage (second t) total)
          (JSNumber.percentage (third t) total)).

(* ================================================================= *)
(** ** Equity, hero vs villain (hand vs hand) *)

Record HandVsHandEquityResult : Set := mkHandVsHandEquityResult {
  heroWin : nat;
  villainWin : nat;
  hvh_tie : nat;
  heroPct : float;
  villainPct : float;
  hvh_tiePct : float
}.

Definition compareRanks (a b : RankClass) : Z :=
  JSArray.indexOf RANK_ORDER a - JSArray.indexOf RANK_ORDER b.

Definition calculateHandVsHandEquity (heroHole villainHole : Card * Card)
    (board : list Card) (iterations : nat) : JS HandVsHandEquityResult :=
  t ← for_upto iterations
    (λ acc,
       let used := [heroHole.1; heroHole.2] ++ [villainHole.1; villainHole.2]
                   ++ board in
       let deck := removeUsed FULL_DECK used in
       shuffled ← shuffle deck;
       let need := 5 - Z.of_nat (length board) in
       let runout := JSArray.slice shuffled 0 need in
       let fullBoard := board ++ runout in
       heroRank ← evaluate7Perfect ([heroHole.1; heroHole.2] ++ fullBoard);
       villainRank ← evaluate7Perfect ([villainHole.1; villainHole.2] ++ fullBoard);
       let cmp := compareRanks heroRank villainRank in
       mret (if 0 <? cmp then mkTally (S (first acc)) (second acc) (third acc)
             else if cmp <? 0 then mkTally (first acc) (S (second acc)) (third acc)
             else mkTally (first acc) (second acc) (S (third acc))))
    (mkTally 0 0 0);
  let total := (first t + second t + third t)%nat in
  mret (mkHandVsHandEquityResult (first t) (second t) (third t)
          (JSNumber.percentage (first t) total)
          (JSNumber.percentage (second t) total)
          (JSNumber.percentage (third t) total)).

(* ================================================================= *)
(** * Part II: vocabulary of the properties *)

(* ================================================================= *)
(** ** Strings *)

Fixpoint comma_free (s : string) : bool :=
  match s with
  | EmptyString => true
  | String c s' => negb (Ascii.eqb c ",") && comma_free s'
  end.

(* ================================================================= *)
(** ** Outcomes of [JS] computations *)

(** [wp m Q p]: run from [p], the computation [m] ends in an outcome and
    a process that satisfy [Q]. *)
Definition wp {A} (m : JS A) (Q : Outcome A → Process → Prop) (p : Process) : Prop :=
  Q (m p).1 (m p).2.

(** A postcondition on the value returned, and one on the exception. *)
Definition post {A} (Q : A → Process → Prop) (E : Failure → Process → Prop)
    (o : Outcome A) (p : Process) : Prop :=
  match o with
  | Returned a => Q a p
  | Thrown e => E e p
  end.

Definition never : Failure → Process → Prop := λ _ _, False.

(* ================================================================= *)
(** ** The evaluators without the table *)

Definition isFlush (cards : list Card) : bool :=
  negb (Z.land (suitAND (map encodeCard cards)) 0xf000 =? 0).

Definition isStraight (cards : list Card) : bool :=
  isStraightMask (rankMask (map encodeCard cards)).

Definition productOf (cards : list Card) : Z :=
  primeProduct (map encodeCard cards).

(** What [evaluate5Kev] computes when the table has no entry for the hand. *)
Definition classify5 (cards : list Card) : RankClass :=
  if isStraight cards && isFlush cards then STRAIGHTFLUSH
  else if isFlush cards then FLUSH
  else if isStraight cards then STRAIGHT
  else classifyByCounts (buildCounts cards).

(** Every entry of the table holds [HIGH]. *)
Definition table_sound (t : gmap Z RankClass) : Prop :=
  ∀ key cls, t !! key = Some cls → cls = HIGH.

Definition sound (p : Process) : Prop := table_sound (PRIME_LOOKUP p).

(** The tables a process can hold: empty at start-up, then filled by
    calls of [evaluate5Kev], on any input and in any order. *)
Inductive populated : gmap Z RankClass → Prop :=
  | populated_empty : populated ∅
  | populated_call (cards : list Card) (p : Process) :
      populated (PRIME_LOOKUP p) →
      populated (PRIME_LOOKUP (evaluate5Kev cards p).2).

(** Position in [RANK_ORDER]: the total order on rank classes. *)
Definition position (r : RankClass) : Z := JSArray.indexOf RANK_ORDER r.

(** The update [if (rankOrder.indexOf(r) > rankOrder.indexOf(best)) best = r]. *)
Definition better (best r : RankClass) : RankClass :=
  if position best <? position r then r else best.

(** What [evaluate7Perfect] computes from a sound table. *)
Definition bestOf7 (cards : list Card) : RankClass :=
  foldl better HIGH (map classify5 (combinations cards 5)).

(* ================================================================= *)
(** ** Primes of the ranks *)

Definition primeOf (r : Rank) : Z := nth (rankIndex r) PRIMES 0.

Definition rankProduct (ranks : list Rank) : Z :=
  foldr (λ r acc, primeOf r * acc) 1 ranks.

(** Primality by trial division. *)
Definition trial_division (p : Z) : bool :=
  forallb (λ n, negb (p mod n =? 0)) (map Z.of_nat (seq 2 (Z.to_nat p - 2))).

(* ================================================================= *)
(** ** Counters *)

Definition trials (t : Tally) : nat := (first t + second t + third t)%nat.

Definition hvh_counted (iterations : nat) (r : HandVsHandEquityResult) : Prop :=
  (heroWin r + villainWin r + hvh_tie r = iterations)%nat
  ∧ heroPct r = JSNumber.percentage (heroWin r) iterations
  ∧ villainPct r = JSNumber.percentage (villainWin r) iterations
  ∧ hvh_tiePct r = JSNumber.percentage (hvh_tie r) iterations.



(** The comparison every trial makes once the board is complete. *)
Definition showdown (heroHole villainHole : Card * Card) (board : list Card) : Z :=
  compareRanks (bestOf7 ([heroHole.1; heroHole.2] ++ board))
               (bestOf7 ([villainHole.1; villainHole.2] ++ board)).

(** The counters after [n] trials that all compare as [cmp]. *)
Definition settled (cmp : Z) (n : nat) : Tally :=
  if 0 <? cmp then mkTally n 0 0
  else if cmp <? 0 then mkTally 0 n 0
  else mkTally 0 0 n.

(* ================================================================= *)
(** ** Rank bits *)

(** The rank bit of a card, or of a missing entry. *)
Definition rankBit (o : option Rank) : Z :=
  match o with
  | Some r => Z.shiftl 1 (Z.of_nat (rankIndex r))
  | None => 0
  end.

Definition rank_options : list (option Rank) := None :: map Some RANKS.

(* ================================================================= *)
(** ** Hands and calls used as examples *)

Definition full_house : list Card := [R2♣; R2♦; R2♥; R5♠; R5♣].
Definition wheel : list Card := [RA♣; R2♦; R3♥; R4♠; R5♣].
Definition four_cards : list Card := [RA♣; R2♦; R3♥; R4♠].
Definition no_draws : nat → nat := λ _, O.

Definition flush_hole : RangeHand := (RA♠, RK♠).
Definition low_hole : RangeHand := (R2♣, R3♦).
Definition spade_board : list Card := [RQ♠; RJ♠; R9♠; R7♥; R4♦].

Definition ace_king : Card * Card := (RA♠, RK♠).
Definition ace_three : Card * Card := (RA♠, R3♦).

Definition royal_seven : list Card := [RA♠; RK♠; RQ♠; RJ♠; R10♠; R2♣; R3♦].

(** The table a sequence of calls leaves behind. *)
Definition after_calls (history : list (list Card)) (p : Process) : Process :=
  foldl (λ q cards, (evaluate5Kev cards q).2) p history.

Definition pair_of_twos : list Card := [R2♣; R2♦; R7♥; R9♠; RK♣].
Definition other_twos : list Card := [RK♦; R9♥; R2♥; R7♣; R2♠].

(* ================================================================= *)
(** * Part II, continued: vocabulary of the further properties *)

(** The number of ways to choose [k] positions among [n]. *)
Fixpoint binomial (n k : nat) : nat :=
  match n, k with
  | _, O => 1
  | O, S _ => 0
  | S n', S k' => binomial n' k' + binomial n' (S k')
  end.

(** All five cards of one suit. *)
Definition suited (cards : list Card) : Prop :=
  ∃ s, ∀ c, c ∈ cards → suit c = s.

(** The ten runs of five ranks that make a straight: from ten-to-ace down
    to two-to-six, and ace-to-five. *)
Definition RUNS : list (list Rank) :=
  [ [R10; RJ; RQ; RK; RA];
    [R9; R10; RJ; RQ; RK];
    [R8; R9; R10; RJ; RQ];
    [R7; R8; R9; R10; RJ];
    [R6; R7; R8; R9; R10];
    [R5; R6; R7; R8; R9];
    [R4; R5; R6; R7; R8];
    [R3; R4; R5; R6; R7];
    [R2; R3; R4; R5; R6];
    [RA; R2; R3; R4; R5] ].

(** The ranks of the cards cover one of the runs. *)
Definition covers_run (cards : list Card) : Prop :=
  ∃ run, run ∈ RUNS ∧ ∀ r, r ∈ run → r ∈ map rank cards.

(** The same, read on a mask of rank bits. *)
Definition mask_covers_run (mask : Z) : bool :=
  existsb (λ run, forallb (λ r, Z.testbit mask (Z.of_nat (rankIndex r))) run) RUNS.

(** The classes a hand can be given by the flush and straight tests. *)
Definition made_classes : list RankClass := [HIGH; STRAIGHT; FLUSH; STRAIGHTFLUSH].

(** Two processes that will deliver the same draws, each with a table
    filled by the evaluator. *)
Definition akin (p q : Process) : Prop :=
  sound p ∧ sound q ∧ entropy p = entropy q.

(** A computation whose outcome is not changed by the table: from akin
    processes it ends in the same outcome, and in akin processes. *)
Definition transparent {A} (m : JS A) : Prop :=
  ∀ p q, akin p q → (m p).1 = (m q).1 ∧ akin (m p).2 (m q).2.

(** The draws left after [n] shuffles of [step] cards. *)
Definition shift_draws (step n : nat) (draws : nat → nat) : nat → nat :=
  Nat.iter n (λ d k, d (step + k)%nat) draws.

(** One more trial that compared as [cmp]. *)
Definition bump (cmp : Z) (t : Tally) : Tally :=
  if 0 <? cmp then mkTally (S (first t)) (second t) (third t)
  else if cmp <? 0 then mkTally (first t) (S (second t)) (third t)
  else mkTally (first t) (second t) (S (third t)).

(** The counters with the two sides exchanged. *)
Definition swap_sides (t : Tally) : Tally :=
  mkTally (second t) (first t) (third t).

(** A trial of [calculateHandVsHandEquity], as a function of the draws:
    the deck, the completed board, the comparison. *)
Definition hvh_deck (heroHole villainHole : Card * Card) (board : list Card)
    : list Card :=
  removeUsed FULL_DECK
    ([heroHole.1; heroHole.2] ++ [villainHole.1; villainHole.2] ++ board).

Definition hvh_fullBoard (heroHole villainHole : Card * Card)
    (board : list Card) (draws : nat → nat) : list Card :=
  board ++ JSArray.slice (arrange draws (hvh_deck heroHole villainHole board))
             0 (5 - Z.of_nat (length board)).

Definition hvh_trial (heroHole villainHole : Card * Card) (board : list Card)
    (draws : nat → nat) : Z :=
  compareRanks
    (bestOf7 ([heroHole.1; heroHole.2]
              ++ hvh_fullBoard heroHole villainHole board draws))
    (bestOf7 ([villainHole.1; villainHole.2]
              ++ hvh_fullBoard heroHole villainHole board draws)).

(** The counters after [n] trials: trial [i] shuffles with the draws left
    by the [i] shuffles before it. *)
Fixpoint hvh_tally (heroHole villainHole : Card * Card) (board : list Card)
    (draws : nat → nat) (n : nat) : Tally :=
  match n with
  | O => mkTally 0 0 0
  | S i =>
      bump (hvh_trial heroHole villainHole board
              (shift_draws (length (hvh_deck heroHole villainHole board)) i draws))
           (hvh_tally heroHole villainHole board draws i)
  end.

(** A trial of [calculateHandEquity], as a function of the draws: the
    deck, the two cards dealt to the unknown hand, the completed board,
    the comparison. *)
Definition field_deck (heroHole : Card * Card) (board : list Card) : list Card :=
  removeUsed FULL_DECK ([heroHole.1; heroHole.2] ++ board).

Definition field_villain (heroHole : Card * Card) (board : list Card)
    (draws : nat → nat) : list Card :=
  take 2 (arrange draws (field_deck heroHole board)).

Definition field_fullBoard (heroHole : Card * Card) (board : list Card)
    (draws : nat → nat) : list Card :=
  board ++ JSArray.slice (arrange draws (field_deck heroHole board))
             2 (2 + (5 - Z.of_nat (length board))).

Definition field_trial (heroHole : Card * Card) (board : list Card)
    (draws : nat → nat) : Z :=
  compareRanks
    (bestOf7 ([heroHole.1; heroHole.2] ++ field_fullBoard heroHole board draws))
    (bestOf7 (field_villain heroHole board draws
              ++ field_fullBoard heroHole board draws)).

Fixpoint field_tally (heroHole : Card * Card) (board : list Card)
    (draws : nat → nat) (n : nat) : Tally :=
  match n with
  | O => mkTally 0 0 0
  | S i =>
      bump (field_trial heroHole board
              (shift_draws (length (field_deck heroHole board)) i draws))
           (field_tally heroHole board draws i)
  end.

(** A board of six cards. *)
Definition six_board : list Card := [RQ♠; RJ♠; R9♠; R7♥; R4♦; R8♣].

(* ================================================================= *)
(** * Part III: properties *)

(* ================================================================= *)
(** ** Decimal strings, [sort] and [join] *)

Section Patterns.
Import JSArray.

Lemma comma_free_digits (d : uint) :
  comma_free (NilEmpty.string_of_uint d) = true.
Proof. induction d; simpl; auto. Qed.

Lemma to_uint_not_Nil (n : nat) : Nat.to_uint n ≠ Nil.
Proof.
  rewrite <- (DecimalNat.Unsigned.of_to n) at 1.
  rewrite DecimalNat.Unsigned.to_of. unfold unorm.
  destruct (nzhead (Nat.to_uint n)); discriminate.
Qed.

Lemma Number_toString_comma_free (n : nat) :
  comma_free (Number_toString n) = true.
Proof.
  unfold Number_toString, NilZero.string_of_uint.
  destruct (Nat.to_uint n); try apply (comma_free_digits (_ _)); reflexivity.
Qed.

Lemma Number_toString_nonempty (n : nat) : Number_toString n ≠ EmptyString.
Proof.
  unfold Number_toString, NilZero.string_of_uint.
  pose proof (to_uint_not_Nil n) as Hn.
  destruct (Nat.to_uint n); simpl; congruence.
Qed.

Lemma Number_toString_inj (a b : nat) :
  Number_toString a = Number_toString b → a = b.
Proof.
  unfold Number_toString. intros E.
  apply DecimalNat.Unsigned.to_uint_inj.
  apply (f_equal NilZero.uint_of_string) in E.
  rewrite !NilZero.usu in E by apply to_uint_not_Nil.
  congruence.
Qed.

(** A comma-free prefix is determined by the position of the first comma. *)
Lemma first_comma (s1 s2 t1 t2 : string) :
  comma_free s1 = true → comma_free s2 = true →
  (s1 ++ String "," t1 = s2 ++ String "," t2)%string →
  s1 = s2 ∧ t1 = t2.
Proof.
  revert s2. induction s1 as [|c s1 IH]; intros [|c' s2]; simpl;
    intros H1 H2 E.
  - by injection E.
  - injection E as <- _. by rewrite Ascii.eqb_refl in H2.
  - injection E as -> _. by rewrite Ascii.eqb_refl in H1.
  - injection E as -> E.
    apply andb_true_iff in H1 as [_ H1], H2 as [_ H2].
    destruct (IH s2 H1 H2 E) as [-> ->]. done.
Qed.

Lemma comma_inside (s t : string) :
  comma_free (s ++ String "," t)%string = false.
Proof.
  induction s as [|c s IH]; simpl; [done|].
  rewrite IH. apply andb_false_r.
Qed.

Lemma join_cons2 (a b : nat) (l : list nat) :
  join "," (a :: b :: l)
  = (Number_toString a ++ String "," (join "," (b :: l)))%string.
Proof. reflexivity. Qed.

Lemma join_nonempty (a : nat) (l : list nat) :
  join "," (a :: l) ≠ EmptyString.
Proof.
  pose proof (Number_toString_nonempty a) as Ha.
  destruct l; [|rewrite join_cons2]; unfold join; simpl;
    destruct (Number_toString a); done.
Qed.

(** [join] loses nothing: the array can be read back from the string. *)
Lemma join_inj (l1 l2 : list nat) : join "," l1 = join "," l2 → l1 = l2.
Proof.
  revert l2. induction l1 as [|a l1 IH]; intros [|b l2] E; [done|..].
  - symmetry in E. by apply join_nonempty in E.
  - by apply join_nonempty in E.
  - destruct l1 as [|a' l1], l2 as [|b' l2].
    + f_equal. by apply Number_toString_inj.
    + rewrite join_cons2 in E. cbn in E.
      pose proof (Number_toString_comma_free a) as Ha.
      rewrite E, comma_inside in Ha. done.
    + rewrite join_cons2 in E. cbn in E.
      pose proof (Number_toString_comma_free b) as Hb.
      rewrite <- E, comma_inside in Hb. done.
    + rewrite !join_cons2 in E.
      apply first_comma in E as [E1 E2];
        auto using Number_toString_comma_free.
      f_equal; [by apply Number_toString_inj | by apply IH].
Qed.

Global Instance sort_le_total : Total sort_le.
Proof. intros x y. unfold sort_le. apply String.leb_total. Qed.

Lemma sort_Sorted (arr : list nat) : Sorted sort_le (sort arr).
Proof. apply Sorted_merge_sort, _. Qed.

(** The pattern string is the join of an array in ascending order. *)
Lemma countPattern_ascending (counts : gmap nat nat) (l : list nat) :
  countPattern counts = join "," l → Sorted sort_le l.
Proof.
  unfold countPattern. intros E. apply join_inj in E as <-.
  apply sort_Sorted.
Qed.

Lemma descending_pair_unsorted (a b : nat) (l : list nat) :
  String.leb (Number_toString a) (Number_toString b) = false →
  ¬ Sorted sort_le (a :: b :: l).
Proof.
  intros Hab Hs. apply Sorted_inv in Hs as [_ Hhd].
  apply HdRel_inv in Hhd. unfold sort_le in Hhd. congruence.
Qed.

(** No label of the [switch] can be met: each of them lists the counts
    in descending order, and [sort] delivers them ascending. *)
Lemma classifyByCounts_HIGH (counts : gmap nat nat) :
  classifyByCounts counts = HIGH.
Proof.
  unfold classifyByCounts.
  repeat match goal with
  | |- context [String.eqb ?p ?lit] =>
      destruct (String.eqb_spec p lit) as [E|_]; [exfalso|]
  end; try reflexivity.
  - apply (countPattern_ascending _ [4; 1]%nat) in E.
    by apply descending_pair_unsorted in E.
  - apply (countPattern_ascending _ [3; 2]%nat) in E.
    by apply descending_pair_unsorted in E.
  - apply (countPattern_ascending _ [3; 1; 1]%nat) in E.
    by apply descending_pair_unsorted in E.
  - apply (countPattern_ascending _ [2; 2; 1]%nat) in E.
    apply Sorted_inv in E as [E _].
    by apply descending_pair_unsorted in E.
  - apply (countPattern_ascending _ [2; 1; 1; 1]%nat) in E.
    by apply descending_pair_unsorted in E.
Qed.

End Patterns.

(* ================================================================= *)
(** ** Rules for [wp] *)

Section Rules.
Context {A B : Type}.

Lemma wp_ret (a : A) (Q : Outcome A → Process → Prop) (p : Process) :
  Q (Returned a) p → wp (mret a) Q p.
Proof. done. Qed.

Lemma wp_throw (e : Failure) (Q : Outcome A → Process → Prop) (p : Process) :
  Q (Thrown e) p → wp (throw e) Q p.
Proof. done. Qed.

Lemma wp_bind (m : JS A) (k : A → JS B) (Q : Outcome B → Process → Prop)
    (p : Process) :
  wp m (λ o p', match o with
                | Returned a => wp (k a) Q p'
                | Thrown e => Q (Thrown e) p'
                end) p →
  wp (m ≫= k) Q p.
Proof.
  unfold wp, mbind, JS_bind. destruct (m p) as [[a|e] p']; simpl; done.
Qed.

Lemma wp_mono (m : JS A) (Q Q' : Outcome A → Process → Prop) (p : Process) :
  wp m Q p → (∀ o p', Q o p' → Q' o p') → wp m Q' p.
Proof. unfold wp. auto. Qed.

Lemma wp_returned (m : JS A) (Q : A → Process → Prop) (p : Process) :
  wp m (post Q never) p → ∃ a p', m p = (Returned a, p') ∧ Q a p'.
Proof.
  unfold wp. destruct (m p) as [[a|e] p']; simpl; [eauto | done].
Qed.
End Rules.

Lemma wp_for_upto {S} (Inv : nat → S → Process → Prop)
    (E : Failure → Process → Prop) (body : S → JS S) (n : nat) :
  (∀ i s p, (i < n)%nat → Inv i s p →
     wp (body s) (post (Inv (Datatypes.S i)) E) p) →
  ∀ s p, Inv O s p → wp (for_upto n body s) (post (Inv n) E) p.
Proof.
  revert Inv. induction n as [|n IH]; intros Inv Hbody s p H0; simpl.
  - by apply wp_ret.
  - apply wp_bind. eapply wp_mono; [apply (Hbody O); [lia | done]|].
    intros [s'|e] p' Hs'; simpl in *; [|done].
    apply (IH (λ i, Inv (Datatypes.S i))); [|done].
    intros i s0 p0 Hi. apply Hbody. lia.
Qed.

Lemma wp_for_of {A S} (Inv : list A → S → Process → Prop)
    (E : Failure → Process → Prop) (body : A → S → JS S) (arr : list A) :
  (∀ done_ x s p, Inv done_ s p →
     wp (body x s) (post (Inv (done_ ++ [x])) E) p) →
  ∀ s p, Inv [] s p → wp (for_of arr body s) (post (Inv arr) E) p.
Proof.
  revert Inv. induction arr as [|x arr IH]; intros Inv Hbody s p H0; simpl.
  - by apply wp_ret.
  - apply wp_bind. eapply wp_mono; [apply (Hbody [] x); done|].
    intros [s'|e] p' Hs'; simpl in *; [|done].
    apply (IH (λ l, Inv (x :: l))); [|done].
    intros done_ y s0 p0. apply (Hbody (x :: done_)).
Qed.

(* ================================================================= *)
(** ** The 5-card evaluator *)

Lemma evaluate5Kev_unfold (cards : list Card) (p : Process) :
  evaluate5Kev cards p =
    if isStraight cards && isFlush cards then (Returned STRAIGHTFLUSH, p)
    else if isFlush cards then (Returned FLUSH, p)
    else if isStraight cards then (Returned STRAIGHT, p)
    else match PRIME_LOOKUP p !! productOf cards with
         | Some cls => (Returned cls, p)
         | None =>
             (Returned (classifyByCounts (buildCounts cards)),
              mkProcess (<[productOf cards := classifyByCounts (buildCounts cards)]>
                           (PRIME_LOOKUP p))
                        (entropy p))
         end.
Proof.
  unfold evaluate5Kev, isStraight, isFlush, productOf.
  destruct (isStraightMask _), (negb _); simpl; try reflexivity.
  unfold mbind, JS_bind, PRIME_LOOKUP_get. simpl.
  destruct (PRIME_LOOKUP p !! _); reflexivity.
Qed.

Lemma classify5_not_made (cards : list Card) :
  isStraight cards = false → isFlush cards = false → classify5 cards = HIGH.
Proof.
  intros Hs Hf. unfold classify5. rewrite Hs, Hf. cbn [andb].
  apply classifyByCounts_HIGH.
Qed.

(** The table never changes the answer, and stays sound. *)
Lemma evaluate5Kev_sound (cards : list Card) (p : Process) :
  sound p →
  ∃ t', evaluate5Kev cards p = (Returned (classify5 cards), mkProcess t' (entropy p))
        ∧ table_sound t'.
Proof.
  intros Hp. rewrite evaluate5Kev_unfold. unfold classify5.
  rewrite !classifyByCounts_HIGH.
  destruct p as [t draws]. unfold sound in Hp. cbn [PRIME_LOOKUP entropy] in *.
  generalize (productOf cards). intros key.
  destruct (isStraight cards), (isFlush cards); cbn [andb]; eauto.
  destruct (t !! key) as [cls|] eqn:Hget.
  - rewrite (Hp _ _ Hget). eauto.
  - eexists. split; [reflexivity|].
    intros key' cls. rewrite lookup_insert. case_decide.
    + by intros [= <-].
    + apply Hp.
Qed.

Lemma evaluate5Kev_returns (cards : list Card) (p : Process) :
  ∃ cls t', evaluate5Kev cards p = (Returned cls, mkProcess t' (entropy p)).
Proof.
  rewrite evaluate5Kev_unfold. destruct p as [t draws].
  cbn [PRIME_LOOKUP entropy].
  destruct (_ && _), (isFlush cards), (isStraight cards),
    (t !! productOf cards); eauto.
Qed.

Lemma populated_sound (t : gmap Z RankClass) : populated t → table_sound t.
Proof.
  induction 1 as [|cards p _ IH].
  - intros key cls. by rewrite lookup_empty.
  - destruct (evaluate5Kev_sound cards p IH) as (t' & E & Ht').
    rewrite E. exact Ht'.
Qed.

Lemma wp_evaluate5Kev (cards : list Card) (p : Process)
    (Q : Outcome RankClass → Process → Prop) :
  sound p →
  (∀ t', table_sound t' → Q (Returned (classify5 cards)) (mkProcess t' (entropy p))) →
  wp (evaluate5Kev cards) Q p.
Proof.
  intros Hp HQ. unfold wp.
  destruct (evaluate5Kev_sound cards p Hp) as (t' & E & Ht').
  rewrite E. apply HQ, Ht'.
Qed.

(* ================================================================= *)
(** ** [combinations] lists the sub-arrays of length [k] *)

Lemma helper_loop_spec {T} (k : nat) (rest c x : list T) :
  (length c < k)%nat →
  x ∈ helper_loop k rest c ↔
  ∃ t, x = c ++ t ∧ t `sublist_of` rest ∧ length x = k.
Proof.
  revert c. induction rest as [|y rest IH]; intros c Hc; simpl.
  - rewrite elem_of_nil. split; [done|].
    intros (t & -> & Ht & Hlen). apply sublist_nil_r in Ht as ->.
    rewrite app_nil_r in Hlen. lia.
  - rewrite elem_of_app, (IH c Hc). split.
    + intros [Hx | (t & -> & Ht & Hlen)].
      * case_decide as Hk.
        -- apply list_elem_of_singleton in Hx as ->.
           exists [y]. split_and!; [done| |done].
           apply sublist_skip, sublist_nil_l.
        -- rewrite length_app in Hk. simpl in Hk.
           apply IH in Hx as (t & -> & Ht & Hlen);
             [|rewrite length_app; simpl; lia].
           exists (y :: t). rewrite <- app_assoc in *. split_and!; [done| |done].
           by apply sublist_skip.
      * exists t. split_and!; [done| |done]. by apply sublist_cons.
    + intros (t & -> & Ht & Hlen).
      apply sublist_cons_r in Ht as [Ht | (t' & -> & Ht')].
      * right. by exists t.
      * left. case_decide as Hk.
        -- rewrite !length_app in *. simpl in *.
           destruct t'; [|simpl in *; lia].
           apply list_elem_of_singleton. done.
        -- rewrite length_app in Hk. simpl in Hk.
           apply IH; [rewrite length_app; simpl; lia|].
           exists t'. rewrite <- app_assoc. done.
Qed.

Lemma combinations_spec {T} (arr x : list T) (k : nat) :
  x ∈ combinations arr k ↔ x `sublist_of` arr ∧ length x = k.
Proof.
  unfold combinations, helper. case_decide as Hk; simpl in Hk.
  - subst k. rewrite list_elem_of_singleton. split.
    + intros ->. split; [apply sublist_nil_l | done].
    + intros [_ Hx]. by apply nil_length_inv.
  - rewrite helper_loop_spec by (simpl; lia). simpl. split.
    + intros (t & -> & Ht & Hlen). done.
    + intros [Hx Hlen]. by exists x.
Qed.

(** Seven cards have 21 five-card sub-arrays. *)
Lemma combinations_7_5 {T} (arr : list T) :
  length arr = 7%nat → length (combinations arr 5) = 21%nat.
Proof.
  intros Hlen.
  do 8 (destruct arr as [|? arr]; try discriminate Hlen).
  reflexivity.
Qed.

(* ================================================================= *)
(** ** The 7-card selector *)

Lemma position_range (r : RankClass) : 0 ≤ position r ≤ 8.
Proof. destruct r; vm_compute; split; discriminate. Qed.

Lemma position_inj (a b : RankClass) : position a = position b → a = b.
Proof. destruct a, b; vm_compute; congruence. Qed.

Lemma foldl_better_upper (l : list RankClass) (b : RankClass) :
  position b ≤ position (foldl better b l)
  ∧ ∀ r, r ∈ l → position r ≤ position (foldl better b l).
Proof.
  revert b. induction l as [|x l IH]; intros b; simpl.
  - split; [lia|]. intros r Hr. by apply elem_of_nil in Hr.
  - destruct (IH (better b x)) as [Hb Hl].
    assert (position b ≤ position (better b x)
            ∧ position x ≤ position (better b x)) as [Hbb Hbx].
    { unfold better. destruct (Z.ltb_spec (position b) (position x)); lia. }
    split; [lia|]. intros r [->|Hr]%elem_of_cons; [lia | auto].
Qed.

Lemma foldl_better_attained (l : list RankClass) (b : RankClass) :
  foldl better b l = b ∨ foldl better b l ∈ l.
Proof.
  revert b. induction l as [|x l IH]; intros b; simpl; [by left|].
  destruct (IH (better b x)) as [E|Hin].
  - rewrite E. unfold better. case_match; [right; left | by left].
  - right. by right.
Qed.

Lemma wp_evaluate7Perfect (cards : list Card) (p : Process)
    (Q : Outcome RankClass → Process → Prop) :
  sound p →
  (∀ t', table_sound t' → Q (Returned (bestOf7 cards)) (mkProcess t' (entropy p))) →
  wp (evaluate7Perfect cards) Q p.
Proof.
  intros Hp HQ. unfold evaluate7Perfect, bestOf7.
  eapply wp_mono.
  - apply (wp_for_of
      (λ done_ best p', sound p' ∧ entropy p' = entropy p
                        ∧ best = foldl better HIGH (map classify5 done_))
      never); [|done].
    intros done_ c best p' (Hp' & Hent & ->).
    apply wp_bind, wp_evaluate5Kev; [done|]. intros t' Ht'.
    apply wp_ret. simpl. split_and!; [done|done|].
    by rewrite map_app, foldl_app.
  - intros [best|e] p' H; simpl in H; [|done].
    destruct H as (Hp' & Hent & ->). destruct p' as [t' draws'].
    simpl in Hent. subst draws'. by apply HQ.
Qed.

Lemma evaluate7Perfect_sound (cards : list Card) (p : Process) :
  sound p →
  ∃ t', evaluate7Perfect cards p
          = (Returned (bestOf7 cards), mkProcess t' (entropy p))
        ∧ table_sound t'.
Proof.
  intros Hp.
  apply (wp_evaluate7Perfect cards p
    (λ o p', ∃ t', (o, p') = (Returned (bestOf7 cards), mkProcess t' (entropy p))
                   ∧ table_sound t')) in Hp as (t' & E & Ht').
  - exists t'. split; [|exact Ht']. rewrite <- E. apply surjective_pairing.
  - intros t' Ht'. by exists t'.
Qed.

(** From any table at all, both evaluators return, and leave the draws
    alone. *)
Lemma wp_evaluate5Kev_any (cards : list Card) (p : Process)
    (Q : Outcome RankClass → Process → Prop) :
  (∀ cls t', Q (Returned cls) (mkProcess t' (entropy p))) →
  wp (evaluate5Kev cards) Q p.
Proof.
  intros HQ. unfold wp.
  destruct (evaluate5Kev_returns cards p) as (cls & t' & E).
  rewrite E. apply HQ.
Qed.

Lemma wp_evaluate7Perfect_any (cards : list Card) (p : Process)
    (Q : Outcome RankClass → Process → Prop) :
  (∀ cls t', Q (Returned cls) (mkProcess t' (entropy p))) →
  wp (evaluate7Perfect cards) Q p.
Proof.
  intros HQ. unfold evaluate7Perfect.
  eapply wp_mono.
  - apply (wp_for_of (λ _ _ p', entropy p' = entropy p) never); [|done].
    intros _ c best p' Hent.
    apply wp_bind, wp_evaluate5Kev_any. intros cls t'.
    apply wp_ret. exact Hent.
  - intros [best|e] [t' draws'] H; cbn [post never entropy] in H; [|done].
    subst draws'. apply HQ.
Qed.

(* ================================================================= *)
(** ** Order of the cards *)

Lemma foldr_swap_permutation {A B} (f : A → B → B) (b : B) (l1 l2 : list A) :
  (∀ x y acc, f x (f y acc) = f y (f x acc)) →
  l1 ≡ₚ l2 → foldr f b l1 = foldr f b l2.
Proof.
  intros Hf. induction 1; simpl; congruence.
Qed.

Lemma foldl_swap_permutation {A B} (f : B → A → B) (l1 l2 : list A) :
  (∀ x y acc, f (f acc x) y = f (f acc y) x) →
  l1 ≡ₚ l2 → ∀ b, foldl f b l1 = foldl f b l2.
Proof.
  intros Hf. induction 1 as [|x l1 l2 _ IH|x y l|l1 l2 l3 _ IH1 _ IH2];
    intros b; simpl; [done|apply IH|by rewrite Hf|by rewrite IH1].
Qed.

(** On five cards the three aggregates of the evaluator are folds. *)
Lemma suitAND_fold (ints : list Z) :
  length ints = 5%nat → suitAND ints = foldr Z.land (-1) ints.
Proof.
  intros Hlen. do 6 (destruct ints as [|? ints]; try discriminate Hlen).
  unfold suitAND, JSArray.at_int32. cbn [nth foldr].
  by rewrite Z.land_m1_r, !Z.land_assoc.
Qed.

Lemma rankMask_fold (ints : list Z) :
  length ints = 5%nat → rankMask ints = Z.shiftr (foldr Z.lor 0 ints) 16.
Proof.
  intros Hlen. do 6 (destruct ints as [|? ints]; try discriminate Hlen).
  unfold rankMask, JSArray.at_int32. cbn [nth foldr].
  by rewrite Z.lor_0_r, !Z.lor_assoc.
Qed.

Lemma primeProduct_fold (ints : list Z) :
  length ints = 5%nat →
  primeProduct ints = foldr (λ x acc, Z.land x 0xff * acc) 1 ints.
Proof.
  intros Hlen. do 6 (destruct ints as [|? ints]; try discriminate Hlen).
  unfold primeProduct, JSArray.at_int32. cbn [nth foldr]. ring.
Qed.

Lemma countRank_swap (counts : gmap nat nat) (a b : Card) :
  countRank (countRank counts a) b = countRank (countRank counts b) a.
Proof.
  unfold countRank.
  generalize (rankIndex (rank a)), (rankIndex (rank b)). intros i j.
  destruct (decide (i = j)) as [->|Hij]; [done|].
  rewrite !lookup_insert_ne by done.
  by apply insert_insert_ne.
Qed.

Section Reordering.
Context (cards cards' : list Card).
Hypothesis Hlen : length cards = 5%nat.
Hypothesis Hperm : cards ≡ₚ cards'.

Lemma reordered_length : length cards' = 5%nat.
Proof. by rewrite <- Hperm. Qed.

Lemma reordered_ints : map encodeCard cards ≡ₚ map encodeCard cards'.
Proof. by apply Permutation_map. Qed.

Lemma isFlush_permutation : isFlush cards' = isFlush cards.
Proof.
  unfold isFlush.
  rewrite !suitAND_fold by (rewrite length_map; auto using reordered_length).
  f_equal. f_equal. f_equal. symmetry.
  apply foldr_swap_permutation; [|apply reordered_ints].
  intros x y acc. by rewrite !Z.land_assoc, (Z.land_comm x y).
Qed.

Lemma isStraight_permutation : isStraight cards' = isStraight cards.
Proof.
  unfold isStraight.
  rewrite !rankMask_fold by (rewrite length_map; auto using reordered_length).
  f_equal. f_equal. symmetry.
  apply foldr_swap_permutation; [|apply reordered_ints].
  intros x y acc. by rewrite !Z.lor_assoc, (Z.lor_comm x y).
Qed.

Lemma productOf_permutation : productOf cards' = productOf cards.
Proof.
  unfold productOf.
  rewrite !primeProduct_fold by (rewrite length_map; auto using reordered_length).
  symmetry. apply foldr_swap_permutation; [|apply reordered_ints].
  intros x y acc. ring.
Qed.

Lemma buildCounts_permutation : buildCounts cards' = buildCounts cards.
Proof.
  unfold buildCounts. symmetry.
  apply foldl_swap_permutation; [|done].
  intros x y acc. apply countRank_swap.
Qed.

Lemma evaluate5Kev_permutation (p : Process) :
  evaluate5Kev cards' p = evaluate5Kev cards p.
Proof.
  rewrite !evaluate5Kev_unfold.
  by rewrite isFlush_permutation, isStraight_permutation,
    productOf_permutation, buildCounts_permutation.
Qed.
End Reordering.

(** Asking again gives the same answer. *)
Lemma evaluate5Kev_again (cards : list Card) (p : Process) :
  (evaluate5Kev cards (evaluate5Kev cards p).2).1 = (evaluate5Kev cards p).1.
Proof.
  rewrite (evaluate5Kev_unfold cards p).
  destruct (isStraight cards) eqn:Hs, (isFlush cards) eqn:Hf; cbn [andb];
    try (cbn [snd fst]; by rewrite evaluate5Kev_unfold, Hs, Hf).
  destruct (PRIME_LOOKUP p !! productOf cards) as [cls|] eqn:Hget;
    cbn [snd fst]; rewrite evaluate5Kev_unfold, Hs, Hf;
    cbn [andb PRIME_LOOKUP].
  - by rewrite Hget.
  - by rewrite lookup_insert_eq.
Qed.

(* ================================================================= *)
(** ** The prime product as a fingerprint of the ranks *)

Lemma trial_division_prime (p : Z) :
  1 < p → trial_division p = true → Z.prime p.
Proof.
  intros Hp Hcheck. split; [done|]. intros n Hn Hdiv.
  unfold trial_division in Hcheck. rewrite forallb_forall in Hcheck.
  specialize (Hcheck n). rewrite negb_true_iff, Z.eqb_neq in Hcheck.
  apply Hcheck.
  - apply in_map_iff. exists (Z.to_nat n). split; [lia|].
    apply in_seq. lia.
  - apply Z.mod_divide; [lia | done].
Qed.

Lemma primeOf_prime (r : Rank) : Z.prime (primeOf r).
Proof. destruct r; by apply trial_division_prime. Qed.

Lemma primeOf_inj (r r' : Rank) : primeOf r = primeOf r' → r = r'.
Proof. destruct r, r'; vm_compute; congruence. Qed.

(** The low byte of an encoded card is the prime of its rank. *)
Lemma low_byte (c : Card) : Z.land (encodeCard c) 0xff = primeOf (rank c).
Proof. destruct c as [[] []]; reflexivity. Qed.

Lemma productOf_ranks (cards : list Card) :
  length cards = 5%nat → productOf cards = rankProduct (map rank cards).
Proof.
  intros Hlen. unfold productOf.
  rewrite primeProduct_fold by by rewrite length_map.
  unfold rankProduct. clear Hlen.
  induction cards as [|c cards IH]; [done|].
  cbn [map foldr]. by rewrite IH, low_byte.
Qed.

Lemma rankProduct_pos (l : list Rank) : 1 ≤ rankProduct l.
Proof.
  induction l as [|r l IH]; simpl; [lia|].
  pose proof (Z.prime_ge_2 _ (primeOf_prime r)). nia.
Qed.

Lemma rankProduct_permutation (l1 l2 : list Rank) :
  l1 ≡ₚ l2 → rankProduct l1 = rankProduct l2.
Proof.
  apply foldr_swap_permutation. intros x y acc. ring.
Qed.

Lemma prime_divides_rankProduct (r : Rank) (l : list Rank) :
  (primeOf r | rankProduct l) → r ∈ l.
Proof.
  induction l as [|r' l IH]; simpl; intros Hdiv.
  - apply Z.divide_1_r_nonneg in Hdiv;
      pose proof (Z.prime_ge_2 _ (primeOf_prime r)); lia.
  - apply Z.divide_prime_mul in Hdiv as [Hdiv|Hdiv];
      [|right; by apply IH|apply primeOf_prime].
    apply Z.divide_prime_prime in Hdiv; auto using primeOf_prime.
    apply primeOf_inj in Hdiv as ->. left.
Qed.

(** Unique factorisation, for the thirteen primes of the table. *)
Lemma rankProduct_inj (l1 l2 : list Rank) :
  rankProduct l1 = rankProduct l2 → l1 ≡ₚ l2.
Proof.
  revert l2. induction l1 as [|r l1 IH]; intros l2 E.
  - destruct l2 as [|r' l2]; [done|]. simpl in E.
    pose proof (Z.prime_ge_2 _ (primeOf_prime r')).
    pose proof (rankProduct_pos l2). nia.
  - assert (r ∈ l2) as Hin.
    { apply prime_divides_rankProduct. rewrite <- E. simpl.
      apply Z.divide_factor_l. }
    apply elem_of_Permutation in Hin as [l2' Hl2].
    rewrite Hl2. constructor. apply IH.
    rewrite (rankProduct_permutation _ _ Hl2) in E. simpl in E.
    pose proof (Z.prime_ge_2 _ (primeOf_prime r)).
    apply Z.mul_reg_l in E; [done | lia].
Qed.

(** The counts depend on the ranks only, whatever their order. *)
Lemma buildCounts_ranks (cards cards' : list Card) :
  map rank cards ≡ₚ map rank cards' → buildCounts cards = buildCounts cards'.
Proof.
  unfold buildCounts. generalize (∅ : gmap nat nat).
  assert (∀ l (m : gmap nat nat),
    foldl countRank m l
    = foldl (λ m r, <[rankIndex r := (default 0 (m !! rankIndex r) + 1)%nat]> m)
        m (map rank l)) as Hmap.
  { induction l as [|c l IH]; intros m; [done|]. simpl. by rewrite IH. }
  intros m Hperm. rewrite !Hmap.
  apply foldl_swap_permutation; [|done].
  intros x y acc.
  generalize (rankIndex x), (rankIndex y). intros i j.
  destruct (decide (i = j)) as [->|Hij]; [done|].
  rewrite !lookup_insert_ne by done.
  by apply insert_insert_ne.
Qed.

(* ================================================================= *)
(** ** Randomness and the deck *)

(** [rankIndex] is the position in [RANKS], as [forEach] assigns it. *)
Lemma rankIndex_RANKS (r : Rank) : RANKS !! rankIndex r = Some r.
Proof. by destruct r. Qed.

Lemma wp_shuffle {A} (arr : list A) (Q : Outcome (list A) → Process → Prop)
    (p : Process) :
  Q (Returned (arrange (entropy p) arr)) (advance (length arr) p) →
  wp (shuffle arr) Q p.
Proof. intros HQ. exact HQ. Qed.

Lemma wp_Math_random_below (n : nat) (Q : Outcome nat → Process → Prop)
    (p : Process) :
  (∀ i, (n ≠ 0 → i < n)%nat → Q (Returned i) (advance 1 p)) →
  wp (Math_random_below n) Q p.
Proof.
  intros HQ. unfold wp, Math_random_below. cbn [fst snd]. apply HQ.
  intros Hn. destruct n; [done|]. apply Nat.mod_upper_bound. done.
Qed.

Lemma length_insert_at {A} (i : nat) (x : A) (arr : list A) :
  length (insert_at i x arr) = S (length arr).
Proof.
  unfold insert_at. rewrite length_app, length_take. simpl.
  rewrite length_drop. lia.
Qed.

Lemma length_arrange {A} (arr : list A) (draws : nat → nat) :
  length (arrange draws arr) = length arr.
Proof.
  revert draws. induction arr as [|x arr IH]; intros draws; [done|].
  cbn [arrange]. by rewrite length_insert_at, IH.
Qed.

Lemma insert_at_permutation {A} (i : nat) (x : A) (arr : list A) :
  insert_at i x arr ≡ₚ x :: arr.
Proof.
  unfold insert_at. rewrite <- Permutation_middle.
  by rewrite take_drop.
Qed.

(** Whatever the draws, [shuffle] delivers the same cards. *)
Lemma arrange_permutation {A} (arr : list A) (draws : nat → nat) :
  arrange draws arr ≡ₚ arr.
Proof.
  revert draws. induction arr as [|x arr IH]; intros draws; [done|].
  cbn [arrange]. by rewrite insert_at_permutation, IH.
Qed.

(** And every arrangement of the cards is delivered by some draws. *)
Lemma arrange_complete {A} (arr arr' : list A) :
  arr ≡ₚ arr' → ∃ draws, arrange draws arr = arr'.
Proof.
  revert arr'. induction arr as [|x arr IH]; intros arr' Hperm.
  - apply Permutation_nil_l in Hperm as <-. by exists (λ _, O).
  - assert (x ∈ arr') as Hin by (rewrite <- Hperm; left).
    apply list_elem_of_split in Hin as (l1 & l2 & ->).
    apply Permutation_cons_app_inv in Hperm.
    destruct (IH _ Hperm) as [draws Hdraws].
    exists (λ i, match i with O => length l1 | S i' => draws i' end).
    change (arrange _ (x :: arr))
      with (insert_at (length l1 mod S (length (arrange draws arr))) x
              (arrange draws arr)).
    rewrite Hdraws. unfold insert_at.
    rewrite Nat.mod_small by (rewrite length_app; lia).
    by rewrite take_app_length, drop_app_length.
Qed.

Lemma same_card_eq (u c : Card) : same_card u c = true → u = c.
Proof.
  unfold same_card. intros Hsame.
  apply andb_true_iff in Hsame as [Hr%bool_decide_eq_true Hs%bool_decide_eq_true].
  destruct u, c; simpl in *; by subst.
Qed.

(** Removing the used cards takes at most one card of the deck for each. *)
Lemma removeUsed_length_NoDup (deck used : list Card) :
  List.NoDup deck →
  (length deck ≤ length used + length (removeUsed deck used))%nat.
Proof.
  intros Hdeck. unfold removeUsed.
  set (f := λ c, negb (existsb (λ u, same_card u c) used)).
  pose proof (List.filter_length f deck) as Hsplit.
  assert (length (List.filter (λ c, negb (f c)) deck) ≤ length used)%nat;
    [|lia].
  apply List.NoDup_incl_length; [by apply List.NoDup_filter|].
  intros c [_ Hc]%List.filter_In. unfold f in Hc.
  rewrite negb_involutive in Hc. apply existsb_exists in Hc as (u & Hu & Hsame).
  by apply same_card_eq in Hsame as <-.
Qed.

Lemma FULL_DECK_NoDup : List.NoDup FULL_DECK.
Proof.
  apply NoDup_ListNoDup.
  apply (bool_decide_unpack _). vm_compute. exact I.
Qed.

Lemma FULL_DECK_length : length FULL_DECK = 52%nat.
Proof. reflexivity. Qed.

Lemma removeUsed_length (used : list Card) :
  (52 ≤ length used + length (removeUsed FULL_DECK used))%nat.
Proof.
  rewrite <- FULL_DECK_length.
  apply removeUsed_length_NoDup, FULL_DECK_NoDup.
Qed.

(* ================================================================= *)
(** ** The trial loops *)

(** One trial adds one to exactly one counter. *)
Lemma trials_step (t : Tally) (a b : bool) :
  trials (if a then mkTally (S (first t)) (second t) (third t)
          else if b then mkTally (first t) (S (second t)) (third t)
          else mkTally (first t) (second t) (S (third t)))
  = S (trials t).
Proof. destruct a, b; unfold trials; simpl; lia. Qed.

Lemma wp_calculateHandVsHandEquity (heroHole villainHole : Card * Card)
    (board : list Card) (iterations : nat) (p : Process) :
  wp (calculateHandVsHandEquity heroHole villainHole board iterations)
     (post (λ r _, hvh_counted iterations r) never) p.
Proof.
  unfold calculateHandVsHandEquity. apply wp_bind. eapply wp_mono.
  - apply (wp_for_upto (λ i t _, trials t = i) never); [|done].
    intros i t p' _ Ht.
    apply wp_bind, wp_shuffle.
    apply wp_bind, wp_evaluate7Perfect_any. intros heroRank t1.
    apply wp_bind, wp_evaluate7Perfect_any. intros villainRank t2.
    apply wp_ret. cbn [post]. by rewrite trials_step, Ht.
  - intros [t|e] p' Ht; cbn [post never] in Ht; [|done].
    apply wp_ret. cbn [post]. unfold hvh_counted, trials in *.
    cbn [heroWin villainWin hvh_tie heroPct villainPct hvh_tiePct].
    by rewrite Ht.
Qed.



(* ================================================================= *)
(** ** A complete board *)

Lemma slice_nothing {A} (arr : list A) (start : Z) :
  JSArray.slice arr start start = [].
Proof.
  unfold JSArray.slice. by rewrite Z.sub_diag.
Qed.

Lemma wp_full_board (heroHole villainHole : Card * Card) (board : list Card)
    (iterations : nat) (p : Process) :
  length board = 5%nat → sound p →
  wp (calculateHandVsHandEquity heroHole villainHole board iterations)
     (post (λ r _, mkTally (heroWin r) (villainWin r) (hvh_tie r)
                   = settled (showdown heroHole villainHole board) iterations)
           never) p.
Proof.
  intros Hboard Hp. unfold calculateHandVsHandEquity.
  apply wp_bind. eapply wp_mono.
  - apply (wp_for_upto
      (λ i t p', sound p' ∧ t = settled (showdown heroHole villainHole board) i)
      never); [|split; [done|]; unfold settled; by repeat case_match].
    intros i t p' _ [Hp' ->].
    apply wp_bind, wp_shuffle.
    rewrite Hboard. change (5 - Z.of_nat 5) with 0.
    rewrite slice_nothing, app_nil_r.
    apply wp_bind, wp_evaluate7Perfect; [exact Hp'|]. intros t1 Ht1.
    apply wp_bind, wp_evaluate7Perfect; [exact Ht1|]. intros t2 Ht2.
    apply wp_ret. cbn [post]. split; [exact Ht2|].
    fold (showdown heroHole villainHole board). unfold settled.
    destruct (0 <? showdown heroHole villainHole board); [done|].
    destruct (showdown heroHole villainHole board <? 0); done.
  - intros [t|e] p' Ht; cbn [post never] in Ht; [|done].
    destruct Ht as [_ ->]. apply wp_ret. cbn [post].
    cbn [heroWin villainWin hvh_tie].
    unfold settled. by repeat case_match.
Qed.

(* ================================================================= *)
(** ** Inputs of the wrong size *)

Lemma high_bits (c : Card) : Z.shiftr (encodeCard c) 16 = rankBit (Some (rank c)).
Proof. destruct c as [[] []]; reflexivity. Qed.

Lemma rank_options_all (o : option Rank) : In o rank_options.
Proof. destruct o as [[]|]; vm_compute; tauto. Qed.

(** Four rank bits never cover a straight pattern. *)
Lemma no_straight_below_five (a b c d : option Rank) :
  isStraightMask
    (Z.lor (Z.lor (Z.lor (Z.lor (rankBit a) (rankBit b)) (rankBit c)) (rankBit d))
           (rankBit None)) = false.
Proof.
  assert (forallb (λ a, forallb (λ b, forallb (λ c, forallb (λ d,
    negb (isStraightMask
      (Z.lor (Z.lor (Z.lor (Z.lor (rankBit a) (rankBit b)) (rankBit c))
                    (rankBit d)) (rankBit None))))
    rank_options) rank_options) rank_options) rank_options = true) as Hall
    by (vm_compute; reflexivity).
  rewrite forallb_forall in Hall.
  specialize (Hall a (rank_options_all a)). rewrite forallb_forall in Hall.
  specialize (Hall b (rank_options_all b)). rewrite forallb_forall in Hall.
  specialize (Hall c (rank_options_all c)). rewrite forallb_forall in Hall.
  specialize (Hall d (rank_options_all d)).
  by apply negb_true_iff in Hall.
Qed.

Lemma short_not_straight (cards : list Card) :
  (length cards < 5)%nat → isStraight cards = false.
Proof.
  intros Hlen. unfold isStraight, rankMask, JSArray.at_int32.
  destruct cards as [|c1 [|c2 [|c3 [|c4 [|c5 rest]]]]];
    [..|simpl in Hlen; lia]; cbn [map nth];
    rewrite !Z.shiftr_lor, ?high_bits, ?Z.shiftr_0_l.
  - exact (no_straight_below_five None None None None).
  - exact (no_straight_below_five (Some _) None None None).
  - exact (no_straight_below_five (Some _) (Some _) None None).
  - exact (no_straight_below_five (Some _) (Some _) (Some _) None).
  - exact (no_straight_below_five (Some _) (Some _) (Some _) (Some _)).
Qed.

Lemma short_not_flush (cards : list Card) :
  (length cards < 5)%nat → isFlush cards = false.
Proof.
  intros Hlen. unfold isFlush, suitAND, JSArray.at_int32.
  destruct cards as [|c1 [|c2 [|c3 [|c4 [|c5 rest]]]]];
    [..|simpl in Hlen; lia]; cbn [map nth];
    by rewrite ?Z.land_0_r, ?Z.land_0_l.
Qed.

(** On a longer input the flush and straight tests read the first five
    cards only. *)
Lemma long_first_five (cards : list Card) :
  (5 ≤ length cards)%nat →
  isFlush cards = isFlush (take 5 cards)
  ∧ isStraight cards = isStraight (take 5 cards).
Proof.
  intros Hlen.
  destruct cards as [|c1 [|c2 [|c3 [|c4 [|c5 rest]]]]];
    try (simpl in Hlen; lia).
  split; reflexivity.
Qed.

(* ================================================================= *)
(** ** Ranges of the numbers *)

(** An encoded card is a non-negative 29-bit integer: the 32-bit
    operators [&], [|], [<<] and [>>] never wrap on it. *)
Lemma encodeCard_range (c : Card) : 0 ≤ encodeCard c < 2 ^ 29.
Proof. destruct c as [[] []]; vm_compute; split; congruence. Qed.

Lemma primeOf_range (r : Rank) : 2 ≤ primeOf r ≤ 41.
Proof. destruct r; vm_compute; split; congruence. Qed.

Lemma rankProduct_bound (l : list Rank) :
  0 < rankProduct l ≤ 41 ^ Z.of_nat (length l).
Proof.
  induction l as [|r l IH]; [vm_compute; split; [reflexivity | congruence]|].
  cbn [rankProduct foldr length]. fold (rankProduct l).
  pose proof (primeOf_range r) as Hr.
  rewrite Nat2Z.inj_succ, Z.pow_succ_r by lia. split; [nia|].
  apply Z.mul_le_mono_nonneg; lia.
Qed.

(** The prime product of five cards is far below 2^53: the binary64
    multiplications that build it are exact. *)
Lemma primeProduct_hand_bound (cards : list Card) :
  length cards = 5%nat → 0 < productOf cards < 2 ^ 53.
Proof.
  intros Hlen. rewrite productOf_ranks by done.
  pose proof (rankProduct_bound (map rank cards)) as Hb.
  rewrite length_map, Hlen in Hb.
  change (41 ^ Z.of_nat 5) with 115856201 in Hb.
  change (2 ^ 53) with 9007199254740992. lia.
Qed.

(** Percentages as the engine prints them: one third is 33.33, a result
    halfway between two hundredths goes up when the binary64 value is the
    exact half (1 in 800 is 0.13) and down when it lies just below it
    (201 in 20000 is 1), and no trial at all gives [NaN]. *)
Lemma percentage_examples :
  JSNumber.percentage 1 3 = (3333 / 100)%float
  ∧ JSNumber.percentage 1 800 = (13 / 100)%float
  ∧ JSNumber.percentage 201 (200 * 100) = 1%float
  ∧ JSNumber.percentage 4 4 = 100%float
  ∧ PrimFloat.is_nan (JSNumber.percentage 0 0) = true.
Proof. repeat split; vm_compute; reflexivity. Qed.

(* ================================================================= *)
(** * Part IV: the claims of the specification *)

(** C1, which the code misses by a slip: the count patterns of the [switch] are written
    in descending order, ["4,1"], ["3,2"], ..., while [sort()] delivers the
    counts in ascending order, so no label is ever met.
    [classifyByCounts] answers [HIGH] on every input, and the full house
    2♣ 2♦ 2♥ 5♠ 5♣, whose pattern string is ["2,3"], is classified [HIGH]
    rather than [FULLHOUSE]. *)
Theorem kev_full_house_is_HIGH :
  (∀ draws, (evaluate5Kev full_house (startup draws)).1 = Returned HIGH)
  ∧ countPattern (buildCounts full_house) = "2,3"
  ∧ isStraight full_house = false ∧ isFlush full_house = false
  ∧ ∀ counts, classifyByCounts counts = HIGH.
Proof.
  split; [intros draws; vm_compute; reflexivity|].
  split; [vm_compute; reflexivity|].
  split; [vm_compute; reflexivity|].
  split; [vm_compute; reflexivity|].
  apply classifyByCounts_HIGH.
Qed.

(** C2, which the code misses by a slip: [equityRangeVsRange] compares the two rank
    classes with [>] on the strings themselves, which orders them
    alphabetically.  With the hero on a flush and the villain on a high
    card, ["FLUSH" > "HIGH"] is false and the trial goes to the villain,
    although [FLUSH] stands above [HIGH] in the rank order, the order
    [calculateHandVsHandEquity] uses on the same input. *)
Theorem range_equity_compares_literals :
  (evaluate7Perfect ([flush_hole.1; flush_hole.2] ++ spade_board)
     (startup no_draws)).1 = Returned FLUSH
  ∧ (evaluate7Perfect ([low_hole.1; low_hole.2] ++ spade_board)
       (startup no_draws)).1 = Returned HIGH
  ∧ position HIGH < position FLUSH
  ∧ string_gt FLUSH HIGH = false
  ∧ (equityRangeVsRange [flush_hole] [low_hole] spade_board FULL_DECK 1
       (startup no_draws)).1 = Returned (mkRangeEquity 0 1 0)
  ∧ ∃ r, (calculateHandVsHandEquity flush_hole low_hole spade_board 1
            (startup no_draws)).1 = Returned r
         ∧ heroWin r = 1%nat ∧ villainWin r = 0%nat.
Proof.
  split; [vm_compute; reflexivity|].
  split; [vm_compute; reflexivity|].
  split; [vm_compute; reflexivity|].
  split; [vm_compute; reflexivity|].
  split; [vm_compute; reflexivity|].
  eexists. split; [vm_compute; reflexivity|].
  split; reflexivity.
Qed.

(** C3, as stated, fails: with the ace of spades in both holdings the call
    does not fail with [DuplicateCard]; it runs its four trials and
    returns their counters. *)
Lemma duplicate_card_accepted :
  (calculateHandVsHandEquity ace_king ace_three [] 4 (startup no_draws)).1
    ≠ Thrown DuplicateCard
  ∧ ∃ r, (calculateHandVsHandEquity ace_king ace_three [] 4
            (startup no_draws)).1 = Returned r
         ∧ (heroWin r + villainWin r + hvh_tie r = 4)%nat.
Proof.
  assert (∃ r, (calculateHandVsHandEquity ace_king ace_three [] 4
                  (startup no_draws)).1 = Returned r
               ∧ (heroWin r + villainWin r + hvh_tie r = 4)%nat) as Hrun.
  { eexists. split; [vm_compute; reflexivity | reflexivity]. }
  split; [|exact Hrun].
  destruct Hrun as (r & -> & _). discriminate.
Qed.

(** C3, amended: the hand-vs-hand function makes no duplicate check.  When
    a card appears more than once across hero, villain and board, the
    call does not fail: it runs every trial and returns counters that sum
    to the trial count, with their percentages. *)
Theorem duplicates_run_all_trials (heroHole villainHole : Card * Card)
    (board : list Card) (iterations : nat) (p : Process) :
  ¬ NoDup ([heroHole.1; heroHole.2] ++ [villainHole.1; villainHole.2] ++ board) →
  ∃ r p',
    calculateHandVsHandEquity heroHole villainHole board iterations p
      = (Returned r, p')
    ∧ hvh_counted iterations r.
Proof.
  intros _.
  destruct (wp_returned _ _ _
    (wp_calculateHandVsHandEquity heroHole villainHole board iterations p))
    as (r & p' & E & Hr).
  by exists r, p'.
Qed.

Lemma duplicates_run_all_trials_witness :
  ∃ r p',
    calculateHandVsHandEquity ace_king ace_three [] 4 (startup no_draws)
      = (Returned r, p')
    ∧ hvh_counted 4 r.
Proof.
  apply duplicates_run_all_trials.
  apply (bool_decide_unpack _). vm_compute. exact I.
Defined.

(** C4, as stated, fails: a four-card input is not rejected with
    [InvalidHandSize]; the call returns [HIGH]. *)
Lemma four_cards_classified :
  (evaluate5Kev four_cards (startup no_draws)).1 = Returned HIGH
  ∧ (evaluate5Kev four_cards (startup no_draws)).1 ≠ Thrown InvalidHandSize.
Proof.
  assert ((evaluate5Kev four_cards (startup no_draws)).1 = Returned HIGH) as E
    by (vm_compute; reflexivity).
  split; [exact E|]. rewrite E. discriminate.
Qed.

(** C4, amended: [evaluate5Kev] makes no check of the length of its input
    and never fails.  On an input whose length is not five it returns a
    rank class: [HIGH] for every input of fewer than five cards, and for
    a longer input the class of a straight or flush among its first five
    cards, [HIGH] otherwise. *)
Theorem wrong_size_returns (cards : list Card) (p : Process) :
  length cards ≠ 5%nat → populated (PRIME_LOOKUP p) →
  ∃ cls p',
    evaluate5Kev cards p = (Returned cls, p')
    ∧ ((length cards < 5)%nat → cls = HIGH)
    ∧ ((5 < length cards)%nat → cls = classify5 (take 5 cards)).
Proof.
  intros Hlen Hp. apply populated_sound in Hp.
  destruct (evaluate5Kev_sound cards p Hp) as (t' & E & _).
  eexists _, _. split; [exact E|]. split.
  - intros Hshort. apply classify5_not_made;
      auto using short_not_straight, short_not_flush.
  - intros Hlong. unfold classify5.
    destruct (long_first_five cards) as [<- <-]; [lia|].
    by rewrite !classifyByCounts_HIGH.
Qed.

Lemma wrong_size_returns_witness :
  ∃ cls p',
    evaluate5Kev four_cards (startup no_draws) = (Returned cls, p')
    ∧ ((length four_cards < 5)%nat → cls = HIGH)
    ∧ ((5 < length four_cards)%nat → cls = classify5 (take 5 four_cards)).
Proof.
  apply wrong_size_returns; [vm_compute; lia | exact populated_empty].
Defined.


Lemma classify5_permutation (cards cards' : list Card) :
  length cards = 5%nat → cards ≡ₚ cards' → classify5 cards' = classify5 cards.
Proof.
  intros Hlen Hperm. unfold classify5.
  by rewrite (isFlush_permutation cards cards'),
    (isStraight_permutation cards cards'),
    (buildCounts_permutation cards cards').
Qed.

Lemma bestOf7_upper (cards sub : list Card) :
  sub ⊆+ cards → length sub = 5%nat →
  position (classify5 sub) ≤ position (bestOf7 cards).
Proof.
  intros Hsub Hlen.
  apply submseteq_sublist_r in Hsub as (sub' & Hperm & Hsub').
  rewrite <- (classify5_permutation sub sub' Hlen Hperm).
  apply foldl_better_upper, list_elem_of_fmap.
  exists sub'. split; [done|].
  apply combinations_spec. split; [done|]. by rewrite <- Hperm.
Qed.

Lemma bestOf7_attained (cards : list Card) :
  (5 ≤ length cards)%nat →
  ∃ sub, sub `sublist_of` cards ∧ length sub = 5%nat
         ∧ classify5 sub = bestOf7 cards.
Proof.
  intros Hlen. unfold bestOf7.
  destruct (foldl_better_attained (map classify5 (combinations cards 5)) HIGH)
    as [E|Hin].
  - exists (take 5 cards).
    assert (take 5 cards `sublist_of` cards) as Hsub by apply sublist_take.
    assert (length (take 5 cards) = 5%nat) as Hfive
      by (rewrite length_take; lia).
    split_and!; [done..|].
    pose proof (bestOf7_upper cards (take 5 cards)
                  (sublist_submseteq _ _ Hsub) Hfive) as Hup.
    unfold bestOf7 in Hup. rewrite E in Hup |- *.
    apply position_inj. pose proof (position_range (classify5 (take 5 cards))).
    change (position HIGH) with 0 in *. lia.
  - apply list_elem_of_fmap in Hin as (sub & E & Hsub).
    apply combinations_spec in Hsub as [Hsub Hfive].
    by exists sub.
Qed.

(** C6: on seven cards [evaluate7Perfect] returns a rank class that is at
    least, in the rank order, the class [evaluate5Kev] gives to each of
    the 21 five-card subsets (taken in any order, from any populated
    table), and that is the class of one of them: the maximum. *)
Theorem evaluate7Perfect_is_maximum (cards : list Card) (p : Process) :
  length cards = 7%nat → populated (PRIME_LOOKUP p) →
  ∃ best p',
    evaluate7Perfect cards p = (Returned best, p')
    ∧ length (combinations cards 5) = 21%nat
    ∧ (∀ sub, sub ∈ combinations cards 5
              ↔ sub `sublist_of` cards ∧ length sub = 5%nat)
    ∧ (∀ sub q, sub ⊆+ cards → length sub = 5%nat →
                populated (PRIME_LOOKUP q) →
                ∃ cls, (evaluate5Kev sub q).1 = Returned cls
                       ∧ position cls ≤ position best)
    ∧ (∃ sub, sub ∈ combinations cards 5
              ∧ ∀ q, populated (PRIME_LOOKUP q) →
                     (evaluate5Kev sub q).1 = Returned best).
Proof.
  intros Hlen Hp. apply populated_sound in Hp.
  destruct (evaluate7Perfect_sound cards p Hp) as (t0 & E0 & _).
  exists (bestOf7 cards), (mkProcess t0 (entropy p)).
  split; [exact E0|].
  split; [by apply combinations_7_5|].
  split; [intros sub; apply combinations_spec|].
  split.
  - intros sub q Hsub Hfive Hq. apply populated_sound in Hq.
    destruct (evaluate5Kev_sound sub q Hq) as (t' & E & _).
    exists (classify5 sub). rewrite E. split; [done|].
    by apply bestOf7_upper.
  - destruct (bestOf7_attained cards) as (sub & Hsub & Hfive & E); [lia|].
    exists sub. split; [by apply combinations_spec|].
    intros q Hq. apply populated_sound in Hq.
    destruct (evaluate5Kev_sound sub q Hq) as (t' & E' & _).
    by rewrite E', E.
Qed.

Lemma evaluate7Perfect_is_maximum_witness :
  ∃ best p',
    evaluate7Perfect royal_seven (startup no_draws) = (Returned best, p')
    ∧ length (combinations royal_seven 5) = 21%nat
    ∧ (∀ sub, sub ∈ combinations royal_seven 5
              ↔ sub `sublist_of` royal_seven ∧ length sub = 5%nat)
    ∧ (∀ sub q, sub ⊆+ royal_seven → length sub = 5%nat →
                populated (PRIME_LOOKUP q) →
                ∃ cls, (evaluate5Kev sub q).1 = Returned cls
                       ∧ position cls ≤ position best)
    ∧ (∃ sub, sub ∈ combinations royal_seven 5
              ∧ ∀ q, populated (PRIME_LOOKUP q) →
                     (evaluate5Kev sub q).1 = Returned best).
Proof.
  apply evaluate7Perfect_is_maximum; [reflexivity | exact populated_empty].
Defined.



(** C8: with a five-card board and two fixed holdings nothing is drawn
    into the hands, so every trial makes the same comparison.  For any
    two runs, whatever their draws, their trial counts and the tables
    they start from, the same one of the three counters equals the trial
    count in both, and the other two are zero. *)
Theorem full_board_is_settled (heroHole villainHole : Card * Card)
    (board : list Card) (n1 n2 : nat) (p1 p2 : Process) :
  length board = 5%nat →
  populated (PRIME_LOOKUP p1) → populated (PRIME_LOOKUP p2) →
  ∃ r1 r2,
    (calculateHandVsHandEquity heroHole villainHole board n1 p1).1 = Returned r1
    ∧ (calculateHandVsHandEquity heroHole villainHole board n2 p2).1 = Returned r2
    ∧ ((heroWin r1 = n1 ∧ villainWin r1 = O ∧ hvh_tie r1 = O
        ∧ heroWin r2 = n2 ∧ villainWin r2 = O ∧ hvh_tie r2 = O)
       ∨ (heroWin r1 = O ∧ villainWin r1 = n1 ∧ hvh_tie r1 = O
          ∧ heroWin r2 = O ∧ villainWin r2 = n2 ∧ hvh_tie r2 = O)
       ∨ (heroWin r1 = O ∧ villainWin r1 = O ∧ hvh_tie r1 = n1
          ∧ heroWin r2 = O ∧ villainWin r2 = O ∧ hvh_tie r2 = n2)).
Proof.
  intros Hboard Hp1%populated_sound Hp2%populated_sound.
  destruct (wp_returned _ _ _
    (wp_full_board heroHole villainHole board n1 p1 Hboard Hp1))
    as (r1 & p1' & E1 & H1).
  destruct (wp_returned _ _ _
    (wp_full_board heroHole villainHole board n2 p2 Hboard Hp2))
    as (r2 & p2' & E2 & H2).
  exists r1, r2. rewrite E1, E2. split; [done|]. split; [done|].
  unfold settled in H1, H2.
  destruct (0 <? showdown heroHole villainHole board);
    [left; by simplify_eq|].
  destruct (showdown heroHole villainHole board <? 0);
    [right; left; by simplify_eq | right; right; by simplify_eq].
Qed.

Lemma full_board_is_settled_witness :
  ∃ r1 r2,
    (calculateHandVsHandEquity flush_hole low_hole spade_board 3
       (startup no_draws)).1 = Returned r1
    ∧ (calculateHandVsHandEquity flush_hole low_hole spade_board 8
         (startup (λ i, i))).1 = Returned r2
    ∧ ((heroWin r1 = 3%nat ∧ villainWin r1 = O ∧ hvh_tie r1 = O
        ∧ heroWin r2 = 8%nat ∧ villainWin r2 = O ∧ hvh_tie r2 = O)
       ∨ (heroWin r1 = O ∧ villainWin r1 = 3%nat ∧ hvh_tie r1 = O
          ∧ heroWin r2 = O ∧ villainWin r2 = 8%nat ∧ hvh_tie r2 = O)
       ∨ (heroWin r1 = O ∧ villainWin r1 = O ∧ hvh_tie r1 = 3%nat
          ∧ heroWin r2 = O ∧ villainWin r2 = O ∧ hvh_tie r2 = 8%nat)).
Proof.
  apply full_board_is_settled;
    [reflexivity | exact populated_empty | exact populated_empty].
Defined.

Lemma after_calls_populated (history : list (list Card)) (p : Process) :
  populated (PRIME_LOOKUP p) → populated (PRIME_LOOKUP (after_calls history p)).
Proof.
  revert p. induction history as [|cards history IH]; intros p Hp; [done|].
  apply IH. by constructor.
Qed.

(** C9: for two five-card hands that are neither straights nor flushes,
    equal prime products give the same ranks up to order, hence the same
    count pattern.  So [evaluate5Kev] returns the same rank class for a
    hand from the empty table and from the table left by any sequence of
    earlier calls; a straight or a flush leaves the table as it is, and
    no entry of the table holds [STRAIGHT], [FLUSH] or [STRAIGHTFLUSH]. *)
Theorem prime_product_fingerprint (hand1 hand2 hand : list Card)
    (history : list (list Card)) (draws draws' : nat → nat) :
  length hand1 = 5%nat → length hand2 = 5%nat →
  isStraight hand1 = false → isFlush hand1 = false →
  isStraight hand2 = false → isFlush hand2 = false →
  (productOf hand1 = productOf hand2 →
     map rank hand1 ≡ₚ map rank hand2
     ∧ countPattern (buildCounts hand1) = countPattern (buildCounts hand2))
  ∧ (evaluate5Kev hand (after_calls history (startup draws))).1
    = (evaluate5Kev hand (startup draws')).1
  ∧ (∀ p, isStraight hand = true ∨ isFlush hand = true →
          (evaluate5Kev hand p).2 = p)
  ∧ (∀ key cls,
       PRIME_LOOKUP (after_calls history (startup draws)) !! key = Some cls →
       cls ≠ STRAIGHT ∧ cls ≠ FLUSH ∧ cls ≠ STRAIGHTFLUSH).
Proof.
  intros Hlen1 Hlen2 _ _ _ _.
  pose proof (after_calls_populated history (startup draws) populated_empty)
    as Hpop.
  apply populated_sound in Hpop.
  split_and!.
  - intros Hprod. rewrite !productOf_ranks in Hprod by done.
    apply rankProduct_inj in Hprod. split; [done|].
    by rewrite (buildCounts_ranks hand1 hand2).
  - destruct (evaluate5Kev_sound hand _ Hpop) as (t1 & -> & _).
    assert (sound (startup draws')) as Hstart.
    { intros key cls. unfold startup. cbn [PRIME_LOOKUP].
      by rewrite lookup_empty. }
    by destruct (evaluate5Kev_sound hand _ Hstart) as (t2 & -> & _).
  - intros p Hmade. rewrite evaluate5Kev_unfold.
    destruct (isStraight hand), (isFlush hand); cbn [andb snd]; try done.
    by destruct Hmade.
  - intros key cls Hget. rewrite (Hpop key cls Hget). done.
Qed.

Lemma prime_product_fingerprint_witness :
  (productOf pair_of_twos = productOf other_twos →
     map rank pair_of_twos ≡ₚ map rank other_twos
     ∧ countPattern (buildCounts pair_of_twos)
       = countPattern (buildCounts other_twos))
  ∧ (evaluate5Kev full_house
       (after_calls [pair_of_twos; wheel; four_cards] (startup no_draws))).1
    = (evaluate5Kev full_house (startup no_draws)).1
  ∧ (∀ p, isStraight full_house = true ∨ isFlush full_house = true →
          (evaluate5Kev full_house p).2 = p)
  ∧ (∀ key cls,
       PRIME_LOOKUP (after_calls [pair_of_twos; wheel; four_cards]
                       (startup no_draws)) !! key = Some cls →
       cls ≠ STRAIGHT ∧ cls ≠ FLUSH ∧ cls ≠ STRAIGHTFLUSH).
Proof.
  apply prime_product_fingerprint; vm_compute; reflexivity.
Defined.

(** C10: [evaluate5Kev] does not depend on the order of its five cards.
    From any state of the process a permuted hand gets the same rank
    class and leaves the same table, and it gets that class again when
    it is evaluated after the original hand. *)
Theorem evaluate5Kev_order_invariant (cards cards' : list Card) (p : Process) :
  length cards = 5%nat → cards ≡ₚ cards' →
  evaluate5Kev cards' p = evaluate5Kev cards p
  ∧ (evaluate5Kev cards' (evaluate5Kev cards p).2).1 = (evaluate5Kev cards p).1.
Proof.
  intros Hlen Hperm.
  split; [by apply evaluate5Kev_permutation|].
  rewrite (evaluate5Kev_permutation cards cards' Hlen Hperm).
  apply evaluate5Kev_again.
Qed.

Lemma evaluate5Kev_order_invariant_witness :
  evaluate5Kev other_twos (startup no_draws)
  = evaluate5Kev [R2♠; R7♣; R2♥; R9♥; RK♦] (startup no_draws)
  ∧ (evaluate5Kev other_twos
       (evaluate5Kev [R2♠; R7♣; R2♥; R9♥; RK♦] (startup no_draws)).2).1
    = (evaluate5Kev [R2♠; R7♣; R2♥; R9♥; RK♦] (startup no_draws)).1.
Proof.
  apply evaluate5Kev_order_invariant; [reflexivity|].
  apply (bool_decide_unpack _). vm_compute. exact I.
Defined.

(* ================================================================= *)
(** * Part V: further properties of the engine *)

(* ================================================================= *)
(** ** The encoder *)

(** X1: the four fields of an encoded card do not overlap and can be read
    back: the low byte is the prime of the rank, bits 8-11 the rank
    index, bits 12-15 the suit flag, bits 16-28 the one-hot rank bit; two
    cards have the same encoding only when they are the same card. *)
Theorem encodeCard_fields (c c' : Card) :
  Z.land (encodeCard c) 0xff = nth (rankIndex (rank c)) PRIMES 0
  ∧ Z.land (Z.shiftr (encodeCard c) 8) 0xf = Z.of_nat (rankIndex (rank c))
  ∧ Z.land (encodeCard c) 0xf000 = SUIT_MASK (suit c)
  ∧ Z.shiftr (encodeCard c) 16 = Z.shiftl 1 (Z.of_nat (rankIndex (rank c)))
  ∧ (encodeCard c = encodeCard c' ↔ c = c').
Proof.
  assert (∀ d, Z.land (Z.shiftr (encodeCard d) 8) 0xf
               = Z.of_nat (rankIndex (rank d))) as Hrank
    by (intros [[] []]; reflexivity).
  assert (∀ d, Z.land (encodeCard d) 0xf000 = SUIT_MASK (suit d)) as Hsuit
    by (intros [[] []]; reflexivity).
  split; [apply low_byte|]. split; [apply Hrank|]. split; [apply Hsuit|].
  split; [apply high_bits|].
  split; [|by intros ->]. intros E.
  pose proof (Hrank c) as Hr. pose proof (Hsuit c) as Hs.
  rewrite E, Hrank in Hr. rewrite E, Hsuit in Hs.
  destruct c as [r s], c' as [r' s']. cbn [rank suit] in *. f_equal.
  - destruct r, r'; try reflexivity; discriminate Hr.
  - destruct s, s'; try reflexivity; discriminate Hs.
Qed.

(* ================================================================= *)
(** ** The deck *)

Lemma removeUsed_elem (deck used : list Card) (c : Card) :
  c ∈ removeUsed deck used ↔ c ∈ deck ∧ c ∉ used.
Proof.
  unfold removeUsed. rewrite !list_elem_of_In, List.filter_In, negb_true_iff.
  rewrite <- !list_elem_of_In.
  assert (existsb (λ u, same_card u c) used = false ↔ c ∉ used) as ->; [|done].
  rewrite <- not_true_iff_false, existsb_exists. split.
  - intros Hnone Hin. apply Hnone. exists c.
    split; [by apply list_elem_of_In|].
    unfold same_card. by rewrite !bool_decide_eq_true_2.
  - intros Hnotin (u & Hu & Hsame). apply same_card_eq in Hsame as ->.
    by apply Hnotin, list_elem_of_In.
Qed.

Lemma FULL_DECK_complete (c : Card) : c ∈ FULL_DECK.
Proof. destruct c as [[] []]; apply (bool_decide_unpack _); vm_compute; exact I. Qed.

(** X2: [removeUsed] keeps the cards of the deck that are not used, in
    the order of the deck, and nothing else; removing the same cards
    again changes nothing. *)
Theorem removeUsed_keeps_the_rest (deck used : list Card) :
  removeUsed deck used `sublist_of` deck
  ∧ (∀ c, c ∈ removeUsed deck used ↔ c ∈ deck ∧ c ∉ used)
  ∧ removeUsed (removeUsed deck used) used = removeUsed deck used
  ∧ removeUsed deck [] = deck.
Proof.
  split; [|split; [apply removeUsed_elem|split]].
  - unfold removeUsed. induction deck as [|c deck IH]; simpl; [constructor|].
    destruct (negb _); by constructor.
  - unfold removeUsed. induction deck as [|c deck IH]; simpl; [done|].
    destruct (negb _) eqn:Hc; simpl; [|done]. by rewrite Hc, IH.
  - unfold removeUsed. induction deck as [|c deck IH]; simpl; [done|].
    f_equal. exact IH.
Qed.

(** X3: [FULL_DECK] holds each of the 52 cards once, and once [n]
    distinct used cards are removed exactly [52 - n] cards are left, none
    of them used. *)
Theorem deck_after_removal (used : list Card) :
  NoDup used →
  NoDup FULL_DECK
  ∧ (∀ c, c ∈ FULL_DECK)
  ∧ length (removeUsed FULL_DECK used) = (52 - length used)%nat
  ∧ NoDup (removeUsed FULL_DECK used)
  ∧ ∀ c, c ∈ used → c ∉ removeUsed FULL_DECK used.
Proof.
  intros Hused.
  pose proof FULL_DECK_complete as Hcomplete.
  pose proof FULL_DECK_length as Hlen.
  pose proof FULL_DECK_NoDup as Hnodup.
  assert (NoDup FULL_DECK) as Hdeck by apply NoDup_ListNoDup, FULL_DECK_NoDup.
  revert Hcomplete Hlen Hnodup Hdeck. generalize FULL_DECK.
  intros deck Hcomplete Hlen Hnodup Hdeck.
  assert (NoDup (removeUsed deck used)) as Hrest.
  { apply NoDup_ListNoDup, List.NoDup_filter, Hnodup. }
  split; [exact Hdeck|]. split; [exact Hcomplete|].
  split; [|split; [exact Hrest|]].
  - assert (removeUsed deck used ++ used ≡ₚ deck) as Hperm.
    { apply NoDup_Permutation; [|exact Hdeck|].
      - apply NoDup_app. split; [exact Hrest|]. split; [|exact Hused].
        intros c Hc. by apply removeUsed_elem in Hc as [_ Hc].
      - intros c. rewrite elem_of_app, removeUsed_elem.
        specialize (Hcomplete c).
        destruct (decide (c ∈ used)); tauto. }
    apply Permutation_length in Hperm.
    rewrite length_app, Hlen in Hperm. lia.
  - intros c Hc Hin. by apply removeUsed_elem in Hin as [_ Hin].
Qed.

Lemma deck_after_removal_witness :
  NoDup FULL_DECK
  ∧ (∀ c, c ∈ FULL_DECK)
  ∧ length (removeUsed FULL_DECK [RA♠; RK♠; R2♣]) = (52 - 3)%nat
  ∧ NoDup (removeUsed FULL_DECK [RA♠; RK♠; R2♣])
  ∧ ∀ c, c ∈ [RA♠; RK♠; R2♣] → c ∉ removeUsed FULL_DECK [RA♠; RK♠; R2♣].
Proof.
  apply (deck_after_removal [RA♠; RK♠; R2♣]).
  apply (bool_decide_unpack _). vm_compute. exact I.
Defined.

(* ================================================================= *)
(** ** The rank order *)

(** X4: [compareRanks] is the comparison of a total order on the nine
    rank classes: it is zero on equal classes only, swapping the
    arguments changes the sign, and "greater" is transitive. *)
Theorem compareRanks_total_order (a b c : RankClass) :
  (compareRanks a b = 0 ↔ a = b)
  ∧ compareRanks b a = - compareRanks a b
  ∧ -8 ≤ compareRanks a b ≤ 8
  ∧ (0 < compareRanks a b → 0 < compareRanks b c → 0 < compareRanks a c).
Proof.
  assert (∀ x y, compareRanks x y = position x - position y) as Hcmp by done.
  rewrite !Hcmp.
  pose proof (position_range a). pose proof (position_range b).
  pose proof (position_range c).
  split; [|lia]. split; [|intros ->; lia].
  intros E. apply position_inj. lia.
Qed.

(* ================================================================= *)
(** ** [combinations] *)

Lemma binomial_above (n k : nat) : (n < k)%nat → binomial n k = O.
Proof.
  revert k. induction n as [|n IH]; intros [|k] Hk; simpl; try lia.
  rewrite !IH by lia. done.
Qed.

Lemma helper_loop_length {T} (k : nat) (rest c : list T) :
  (length c < k)%nat →
  length (helper_loop k rest c) = binomial (length rest) (k - length c).
Proof.
  revert c. induction rest as [|x rest IH]; intros c Hc.
  - simpl. destruct (k - length c)%nat eqn:E; [lia | done].
  - cbn [helper_loop length]. rewrite length_app, (IH c Hc).
    destruct (k - length c)%nat as [|m] eqn:E; [lia|].
    cbn [binomial]. f_equal.
    case_decide as Hk; rewrite length_app in Hk; cbn [length] in Hk.
    + replace m with O by lia. by destruct (length rest).
    + rewrite IH by (rewrite length_app; cbn [length]; lia).
      rewrite length_app. cbn [length]. f_equal. lia.
Qed.

(** X5: [combinations(arr, k)] returns as many arrays as there are ways
    to choose [k] positions among those of [arr]: one for [k = 0], none
    when [arr] is shorter than [k], 21 for five among seven. *)
Theorem combinations_count {T} (arr : list T) (k : nat) :
  length (combinations arr k) = binomial (length arr) k.
Proof.
  unfold combinations, helper. case_decide as Hk; simpl in Hk.
  - subst k. by destruct (length arr).
  - rewrite helper_loop_length by (simpl; lia). simpl. f_equal. lia.
Qed.

Lemma helper_loop_NoDup {T} (k : nat) (rest c : list T) :
  (length c < k)%nat → NoDup rest → NoDup (helper_loop k rest c).
Proof.
  revert c. induction rest as [|x rest IH]; intros c Hc Hrest; simpl.
  { constructor. }
  apply NoDup_cons in Hrest as [Hx Hrest].
  apply NoDup_app. split; [|split; [|by apply IH]].
  - case_decide as Hk; [apply NoDup_singleton|].
    apply IH; [|done]. rewrite length_app in *. simpl in *. lia.
  - intros z Hz Hz'. apply helper_loop_spec in Hz' as (t & -> & Ht & _); [|done].
    assert (∃ t', c ++ t = c ++ x :: t') as [t' Et].
    { case_decide as Hk.
      - apply list_elem_of_singleton in Hz. exists []. done.
      - apply helper_loop_spec in Hz as (t' & E & _);
          [|rewrite length_app in *; simpl in *; lia].
        exists t'. by rewrite E, <- app_assoc. }
    apply app_inv_head in Et as ->.
    apply Hx. eapply elem_of_sublist; [|exact Ht]. left.
Qed.

(** X6: on an array of distinct elements [combinations] returns each
    sub-array once. *)
Theorem combinations_NoDup {T} (arr : list T) (k : nat) :
  NoDup arr → NoDup (combinations arr k).
Proof.
  intros Harr. unfold combinations, helper. case_decide as Hk.
  - apply NoDup_singleton.
  - apply helper_loop_NoDup; [simpl in *; lia | done].
Qed.

Lemma combinations_NoDup_witness :
  NoDup (combinations [RA♠; RK♠; RQ♠; RJ♠; R10♠; R2♣; R3♦] 5).
Proof.
  apply combinations_NoDup.
  apply (bool_decide_unpack _). vm_compute. exact I.
Defined.

(* ================================================================= *)
(** ** The flush and straight tests *)

Lemma land5_mask_distr (a b c d e m : Z) :
  Z.land (Z.land (Z.land (Z.land (Z.land a b) c) d) e) m
  = Z.land (Z.land (Z.land (Z.land (Z.land a m) (Z.land b m)) (Z.land c m))
                   (Z.land d m)) (Z.land e m).
Proof.
  apply Z.bits_inj'. intros i _. rewrite !Z.land_spec.
  by destruct (Z.testbit a i), (Z.testbit b i), (Z.testbit c i),
    (Z.testbit d i), (Z.testbit e i), (Z.testbit m i).
Qed.

Lemma suit_bits (c : Card) : Z.land (encodeCard c) 0xf000 = SUIT_MASK (suit c).
Proof. destruct c as [[] []]; reflexivity. Qed.

Lemma isFlush_suits (c1 c2 c3 c4 c5 : Card) :
  isFlush [c1; c2; c3; c4; c5]
  = bool_decide (suit c2 = suit c1 ∧ suit c3 = suit c1
                 ∧ suit c4 = suit c1 ∧ suit c5 = suit c1).
Proof.
  unfold isFlush, suitAND, JSArray.at_int32. cbn [map nth].
  rewrite land5_mask_distr, !suit_bits.
  destruct (suit c1), (suit c2), (suit c3), (suit c4), (suit c5);
    reflexivity.
Qed.

Lemma isFlush_suited (cards : list Card) :
  length cards = 5%nat → isFlush cards = true ↔ suited cards.
Proof.
  intros Hlen.
  destruct cards as [|c1 [|c2 [|c3 [|c4 [|c5 [|? ?]]]]]]; try discriminate Hlen.
  rewrite isFlush_suits, bool_decide_eq_true. unfold suited. split.
  - intros (E2 & E3 & E4 & E5). exists (suit c1). intros c Hc.
    repeat (apply elem_of_cons in Hc as [->|Hc]; [done|]).
    by apply elem_of_nil in Hc.
  - intros [s Hs].
    rewrite (Hs c1), (Hs c2), (Hs c3), (Hs c4), (Hs c5);
      [done | repeat constructor..].
Qed.

Lemma isStraightMask_low_bits (mask : Z) :
  isStraightMask mask = isStraightMask (Z.land mask 8191).
Proof.
  unfold isStraightMask.
  assert (Forall (λ s, Z.land 8191 s = s) STRAIGHTS) as Hlow
    by (repeat constructor).
  induction Hlow as [|s l Hs _ IH]; [done|]. cbn [existsb].
  by rewrite IH, <- Z.land_assoc, Hs.
Qed.

Lemma mask_covers_run_low_bits (mask : Z) :
  mask_covers_run mask = mask_covers_run (Z.land mask 8191).
Proof.
  unfold mask_covers_run.
  assert (∀ r, Z.testbit (Z.land mask 8191) (Z.of_nat (rankIndex r))
               = Z.testbit mask (Z.of_nat (rankIndex r))) as Hbit.
  { intros r. rewrite Z.land_spec. destruct r; apply andb_true_r. }
  induction RUNS as [|run runs IH]; [done|]. cbn [existsb]. rewrite IH.
  f_equal. induction run as [|r run IHrun]; [done|]. cbn [forallb].
  by rewrite IHrun, Hbit.
Qed.

(** The table of ten masks recognises the ten runs, on every mask. *)
Lemma isStraightMask_runs (mask : Z) :
  isStraightMask mask = mask_covers_run mask.
Proof.
  rewrite isStraightMask_low_bits, mask_covers_run_low_bits.
  assert (0 ≤ Z.land mask 8191 < 8192) as Hrange.
  { change 8191 with (Z.ones 13). rewrite Z.land_ones by lia.
    apply Z.mod_pos_bound. lia. }
  generalize dependent (Z.land mask 8191). intros m Hm.
  assert (forallb (λ n, Bool.eqb (isStraightMask (Z.of_nat n))
                                 (mask_covers_run (Z.of_nat n)))
            (seq 0 (Z.to_nat 8192)) = true) as Hall by (vm_compute; reflexivity).
  rewrite forallb_forall in Hall.
  specialize (Hall (Z.to_nat m)). rewrite Z2Nat.id in Hall by lia.
  apply Bool.eqb_prop, Hall, in_seq. lia.
Qed.

Lemma rankBit_testbit (r r' : Rank) :
  Z.testbit (rankBit (Some r')) (Z.of_nat (rankIndex r)) = bool_decide (r = r').
Proof. destruct r, r'; reflexivity. Qed.

Lemma rankMask_testbit (c1 c2 c3 c4 c5 : Card) (r : Rank) :
  Z.testbit (rankMask (map encodeCard [c1; c2; c3; c4; c5]))
            (Z.of_nat (rankIndex r)) = true
  ↔ r ∈ map rank [c1; c2; c3; c4; c5].
Proof.
  unfold rankMask, JSArray.at_int32. cbn [map nth].
  rewrite !Z.shiftr_lor, !high_bits, !Z.lor_spec, !rankBit_testbit.
  rewrite !orb_true_iff, !bool_decide_eq_true, !elem_of_cons, elem_of_nil.
  tauto.
Qed.

Lemma isStraight_covers_run (cards : list Card) :
  length cards = 5%nat → isStraight cards = true ↔ covers_run cards.
Proof.
  intros Hlen.
  destruct cards as [|c1 [|c2 [|c3 [|c4 [|c5 [|? ?]]]]]]; try discriminate Hlen.
  unfold isStraight. rewrite isStraightMask_runs.
  unfold mask_covers_run, covers_run. rewrite existsb_exists.
  split; intros (run & Hrun & Hcover); exists run.
  - split; [by apply list_elem_of_In|]. intros r Hr.
    rewrite forallb_forall in Hcover.
    apply rankMask_testbit, Hcover. by apply list_elem_of_In.
  - split; [by apply list_elem_of_In|]. apply forallb_forall. intros r Hr.
    apply rankMask_testbit, Hcover. by apply list_elem_of_In.
Qed.

Lemma classify5_cases (cards : list Card) :
  classify5 cards
  = if isStraight cards && isFlush cards then STRAIGHTFLUSH
    else if isFlush cards then FLUSH
    else if isStraight cards then STRAIGHT
    else HIGH.
Proof. unfold classify5. by rewrite classifyByCounts_HIGH. Qed.

(** X7: on five cards the flush test of [evaluate5Kev] holds exactly when
    the five cards have one suit: from a populated table the call
    returns [FLUSH] or [STRAIGHTFLUSH] if and only if they do. *)
Theorem flush_test_meaning (cards : list Card) (p : Process) :
  length cards = 5%nat → populated (PRIME_LOOKUP p) →
  ((evaluate5Kev cards p).1 = Returned FLUSH
   ∨ (evaluate5Kev cards p).1 = Returned STRAIGHTFLUSH)
  ↔ suited cards.
Proof.
  intros Hlen Hp%populated_sound.
  destruct (evaluate5Kev_sound cards p Hp) as (t' & -> & _). cbn [fst].
  rewrite <- (isFlush_suited cards Hlen), classify5_cases.
  destruct (isStraight cards), (isFlush cards); cbn [andb];
    split; intros H; try done; try (by left); try (by right);
    by destruct H.
Qed.

Lemma flush_test_meaning_witness :
  ((evaluate5Kev [R2♣; R3♣; R4♣; R5♣; R7♣] (startup no_draws)).1
     = Returned FLUSH
   ∨ (evaluate5Kev [R2♣; R3♣; R4♣; R5♣; R7♣] (startup no_draws)).1
     = Returned STRAIGHTFLUSH)
  ↔ suited [R2♣; R3♣; R4♣; R5♣; R7♣].
Proof.
  apply flush_test_meaning; [reflexivity | exact populated_empty].
Defined.

(** X8: on five cards the straight test of [evaluate5Kev] holds exactly
    when the ranks of the cards cover one of the ten runs, ace-to-five
    included and no run passing over the ace (queen-king-ace-two-three is
    none): from a populated table the call returns [STRAIGHT] or
    [STRAIGHTFLUSH] if and only if they do. *)
Theorem straight_test_meaning (cards : list Card) (p : Process) :
  length cards = 5%nat → populated (PRIME_LOOKUP p) →
  (((evaluate5Kev cards p).1 = Returned STRAIGHT
    ∨ (evaluate5Kev cards p).1 = Returned STRAIGHTFLUSH)
   ↔ covers_run cards)
  ∧ ¬ covers_run [RQ♣; RK♦; RA♥; R2♠; R3♣].
Proof.
  intros Hlen Hp%populated_sound. split.
  - destruct (evaluate5Kev_sound cards p Hp) as (t' & -> & _). cbn [fst].
    rewrite <- (isStraight_covers_run cards Hlen), classify5_cases.
    destruct (isStraight cards), (isFlush cards); cbn [andb];
      split; intros H; try done; try (by left); try (by right);
      by destruct H.
  - rewrite <- isStraight_covers_run by reflexivity.
    by vm_compute.
Qed.

Lemma straight_test_meaning_witness :
  (((evaluate5Kev wheel (startup no_draws)).1 = Returned STRAIGHT
    ∨ (evaluate5Kev wheel (startup no_draws)).1 = Returned STRAIGHTFLUSH)
   ↔ covers_run wheel)
  ∧ ¬ covers_run [RQ♣; RK♦; RA♥; R2♠; R3♣].
Proof.
  apply straight_test_meaning; [reflexivity | exact populated_empty].
Defined.

(* ================================================================= *)
(** ** What the evaluators return *)

Lemma classify5_made (cards : list Card) : classify5 cards ∈ made_classes.
Proof.
  rewrite classify5_cases. unfold made_classes.
  destruct (isStraight cards), (isFlush cards); cbn [andb];
    repeat first [apply list_elem_of_here | apply list_elem_of_further].
Qed.

Lemma bestOf7_made (cards : list Card) : bestOf7 cards ∈ made_classes.
Proof.
  unfold bestOf7.
  destruct (foldl_better_attained (map classify5 (combinations cards 5)) HIGH)
    as [->|Hin]; [apply list_elem_of_here|].
  apply list_elem_of_fmap in Hin as (sub & -> & _). apply classify5_made.
Qed.

(** X9: whatever cards they are given, and from any populated table,
    [evaluate5Kev] and [evaluate7Perfect] return one of [HIGH],
    [STRAIGHT], [FLUSH], [STRAIGHTFLUSH]; they never return [PAIR],
    [TWOPAIR], [TRIPS], [FULLHOUSE] or [QUADS]. *)
Theorem evaluators_return_made_classes (cards : list Card) (p : Process) :
  populated (PRIME_LOOKUP p) →
  ∃ cls5 cls7,
    (evaluate5Kev cards p).1 = Returned cls5
    ∧ (evaluate7Perfect cards p).1 = Returned cls7
    ∧ cls5 ∈ [HIGH; STRAIGHT; FLUSH; STRAIGHTFLUSH]
    ∧ cls7 ∈ [HIGH; STRAIGHT; FLUSH; STRAIGHTFLUSH].
Proof.
  intros Hp%populated_sound.
  destruct (evaluate5Kev_sound cards p Hp) as (t5 & E5 & _).
  destruct (evaluate7Perfect_sound cards p Hp) as (t7 & E7 & _).
  exists (classify5 cards), (bestOf7 cards). rewrite E5, E7.
  split; [done|]. split; [done|].
  split; [apply classify5_made | apply bestOf7_made].
Qed.

Lemma evaluators_return_made_classes_witness :
  ∃ cls5 cls7,
    (evaluate5Kev full_house (startup no_draws)).1 = Returned cls5
    ∧ (evaluate7Perfect full_house (startup no_draws)).1 = Returned cls7
    ∧ cls5 ∈ [HIGH; STRAIGHT; FLUSH; STRAIGHTFLUSH]
    ∧ cls7 ∈ [HIGH; STRAIGHT; FLUSH; STRAIGHTFLUSH].
Proof.
  apply evaluators_return_made_classes. exact populated_empty.
Defined.

(* ================================================================= *)
(** ** The lookup table *)

(** X10: a call of [evaluate5Kev] only adds to [PRIME_LOOKUP]: every
    entry stays as it was, at most one entry is added, under the prime
    product of the first five cards, and the draws are not touched.  For
    a hand that is neither straight nor flush the table then holds the
    class returned under that product. *)
Theorem table_only_grows (cards : list Card) (p : Process) :
  ∃ cls p',
    evaluate5Kev cards p = (Returned cls, p')
    ∧ PRIME_LOOKUP p ⊆ PRIME_LOOKUP p'
    ∧ (∀ key, key ≠ productOf cards →
              PRIME_LOOKUP p' !! key = PRIME_LOOKUP p !! key)
    ∧ (size (PRIME_LOOKUP p') ≤ S (size (PRIME_LOOKUP p)))%nat
    ∧ entropy p' = entropy p
    ∧ (isStraight cards = false → isFlush cards = false →
       PRIME_LOOKUP p' !! productOf cards = Some cls).
Proof.
  rewrite evaluate5Kev_unfold. destruct p as [t draws].
  cbn [PRIME_LOOKUP entropy].
  destruct (isStraight cards), (isFlush cards); cbn [andb];
    try (eexists _, _; split; [reflexivity|]; cbn [PRIME_LOOKUP entropy];
         split_and!; [done|done|lia|done|done]).
  destruct (t !! productOf cards) as [cached|] eqn:Hget.
  - eexists _, _. split; [reflexivity|]. cbn [PRIME_LOOKUP entropy].
    split_and!; [done|done|lia|done|done].
  - eexists _, _. split; [reflexivity|]. cbn [PRIME_LOOKUP entropy].
    split_and!.
    + by apply insert_subseteq.
    + intros key Hkey. by apply lookup_insert_ne.
    + by rewrite map_size_insert_None.
    + done.
    + intros _ _. apply lookup_insert_eq.
Qed.

Lemma table_only_grows_witness :
  ∃ cls p',
    evaluate5Kev pair_of_twos (startup no_draws) = (Returned cls, p')
    ∧ PRIME_LOOKUP (startup no_draws) ⊆ PRIME_LOOKUP p'
    ∧ (∀ key, key ≠ productOf pair_of_twos →
              PRIME_LOOKUP p' !! key = PRIME_LOOKUP (startup no_draws) !! key)
    ∧ (size (PRIME_LOOKUP p') ≤ S (size (PRIME_LOOKUP (startup no_draws))))%nat
    ∧ entropy p' = entropy (startup no_draws)
    ∧ (isStraight pair_of_twos = false → isFlush pair_of_twos = false →
       PRIME_LOOKUP p' !! productOf pair_of_twos = Some cls).
Proof. apply table_only_grows. Defined.

(* ================================================================= *)
(** ** The selector on few cards, on reordered cards, on more cards *)

Lemma combinations_short {T} (arr : list T) (k : nat) :
  (length arr < k)%nat → combinations arr k = [].
Proof.
  intros Hlen. apply nil_length_inv.
  unfold combinations, helper. case_decide as Hk; simpl in Hk; [lia|].
  rewrite helper_loop_length by (simpl; lia).
  apply binomial_above. simpl. lia.
Qed.

Lemma better_HIGH (r : RankClass) : better HIGH r = r.
Proof. by destruct r. Qed.

(** X11: with fewer than five cards [evaluate7Perfect] returns [HIGH]
    without evaluating anything, the process untouched; with exactly
    five cards it is [evaluate5Kev] on these cards. *)
Theorem evaluate7Perfect_few_cards (cards : list Card) (p : Process) :
  ((length cards < 5)%nat → evaluate7Perfect cards p = (Returned HIGH, p))
  ∧ (length cards = 5%nat → evaluate7Perfect cards p = evaluate5Kev cards p).
Proof.
  split; intros Hlen; unfold evaluate7Perfect.
  - by rewrite combinations_short.
  - destruct cards as [|c1 [|c2 [|c3 [|c4 [|c5 [|? ?]]]]]]; try discriminate Hlen.
    change (combinations [c1; c2; c3; c4; c5] 5) with [[c1; c2; c3; c4; c5]].
    destruct (evaluate5Kev_returns [c1; c2; c3; c4; c5] p) as (cls & t' & E).
    cbn [for_of]. unfold mbind, JS_bind, mret, JS_ret. rewrite E.
    fold (position HIGH) (position cls) (better HIGH cls).
    by rewrite better_HIGH.
Qed.

Lemma evaluate7Perfect_few_cards_witness :
  evaluate7Perfect four_cards (startup no_draws)
  = (Returned HIGH, startup no_draws)
  ∧ evaluate7Perfect wheel (startup no_draws)
    = evaluate5Kev wheel (startup no_draws).
Proof.
  split.
  - apply (proj1 (evaluate7Perfect_few_cards four_cards (startup no_draws))).
    vm_compute. lia.
  - apply (proj2 (evaluate7Perfect_few_cards wheel (startup no_draws))).
    reflexivity.
Defined.

Lemma bestOf7_grows (cards cards' : list Card) :
  cards ⊆+ cards' → position (bestOf7 cards) ≤ position (bestOf7 cards').
Proof.
  intros Hsub. destruct (decide (length cards < 5)%nat) as [Hshort|Hlong].
  - unfold bestOf7 at 1. rewrite combinations_short by done.
    apply position_range.
  - destruct (bestOf7_attained cards) as (sub & Hsub5 & Hfive & <-); [lia|].
    apply bestOf7_upper; [|done].
    transitivity cards; [by apply sublist_submseteq | done].
Qed.

(** X12: from populated tables, the class [evaluate7Perfect] returns does
    not depend on the order of the cards, and it never goes down when
    cards are added. *)
Theorem evaluate7Perfect_order_and_growth (cards cards' : list Card)
    (p q : Process) :
  populated (PRIME_LOOKUP p) → populated (PRIME_LOOKUP q) →
  cards ⊆+ cards' →
  ∃ best best',
    (evaluate7Perfect cards p).1 = Returned best
    ∧ (evaluate7Perfect cards' q).1 = Returned best'
    ∧ position best ≤ position best'
    ∧ (cards ≡ₚ cards' → best = best').
Proof.
  intros Hp%populated_sound Hq%populated_sound Hsub.
  destruct (evaluate7Perfect_sound cards p Hp) as (t1 & -> & _).
  destruct (evaluate7Perfect_sound cards' q Hq) as (t2 & -> & _).
  exists (bestOf7 cards), (bestOf7 cards'). split; [done|]. split; [done|].
  split; [by apply bestOf7_grows|].
  intros Hperm. apply position_inj.
  pose proof (bestOf7_grows cards cards' Hsub).
  assert (cards' ⊆+ cards) as Hback by by rewrite Hperm.
  pose proof (bestOf7_grows cards' cards Hback). lia.
Qed.

Lemma evaluate7Perfect_order_and_growth_witness :
  ∃ best best',
    (evaluate7Perfect wheel (startup no_draws)).1 = Returned best
    ∧ (evaluate7Perfect (R9♠ :: R5♣ :: wheel) (startup (λ i, i))).1
      = Returned best'
    ∧ position best ≤ position best'
    ∧ (wheel ≡ₚ R9♠ :: R5♣ :: wheel → best = best').
Proof.
  apply evaluate7Perfect_order_and_growth;
    [exact populated_empty | exact populated_empty |].
  apply (bool_decide_unpack _). vm_compute. exact I.
Defined.

(* ================================================================= *)
(** ** The table is transparent *)

Lemma transparent_ret {A} (a : A) : transparent (mret a).
Proof. intros p q Hpq. done. Qed.

Lemma transparent_throw {A} (e : Failure) : transparent (throw e : JS A).
Proof. intros p q Hpq. done. Qed.

Lemma transparent_bind {A B} (m : JS A) (k : A → JS B) :
  transparent m → (∀ a, transparent (k a)) → transparent (m ≫= k).
Proof.
  intros Hm Hk p q Hpq. unfold mbind, JS_bind.
  destruct (Hm p q Hpq) as [Ho Hakin].
  destruct (m p) as [[a|e] p'], (m q) as [[a'|e'] q'];
    cbn [fst snd] in *; try discriminate Ho.
  - injection Ho as <-. by apply Hk.
  - injection Ho as <-. exact (conj eq_refl Hakin).
Qed.

Lemma transparent_for_upto {S} (n : nat) (body : S → JS S) (s : S) :
  (∀ s', transparent (body s')) → transparent (for_upto n body s).
Proof.
  intros Hbody. revert s. induction n as [|n IH]; intros s; cbn [for_upto].
  - apply transparent_ret.
  - apply transparent_bind; [apply Hbody | apply IH].
Qed.

Lemma transparent_for_of {A S} (arr : list A) (body : A → S → JS S) (s : S) :
  (∀ x s', transparent (body x s')) → transparent (for_of arr body s).
Proof.
  intros Hbody. revert s. induction arr as [|x arr IH]; intros s; cbn [for_of].
  - apply transparent_ret.
  - apply transparent_bind; [apply Hbody | apply IH].
Qed.

Lemma transparent_evaluate5Kev (cards : list Card) :
  transparent (evaluate5Kev cards).
Proof.
  intros p q (Hp & Hq & Hdraws).
  destruct (evaluate5Kev_sound cards p Hp) as (t1 & -> & Ht1).
  destruct (evaluate5Kev_sound cards q Hq) as (t2 & -> & Ht2).
  done.
Qed.

Lemma transparent_evaluate7Perfect (cards : list Card) :
  transparent (evaluate7Perfect cards).
Proof.
  apply transparent_for_of. intros c best.
  apply transparent_bind; [apply transparent_evaluate5Kev|].
  intros r. apply transparent_ret.
Qed.

Lemma transparent_shuffle {A} (arr : list A) : transparent (shuffle arr).
Proof.
  intros p q (Hp & Hq & Hdraws). unfold shuffle, advance, akin, sound.
  cbn [fst snd PRIME_LOOKUP entropy]. by rewrite Hdraws.
Qed.

Lemma transparent_Math_random_below (n : nat) :
  transparent (Math_random_below n).
Proof.
  intros p q (Hp & Hq & Hdraws). unfold Math_random_below, advance, akin, sound.
  cbn [fst snd PRIME_LOOKUP entropy]. by rewrite Hdraws.
Qed.

Lemma transparent_spread (hand : option RangeHand) : transparent (spread hand).
Proof.
  destruct hand as [[c1 c2]|]; [apply transparent_ret | apply transparent_throw].
Qed.

Lemma populated_akin (p q : Process) :
  populated (PRIME_LOOKUP p) → populated (PRIME_LOOKUP q) →
  entropy q = entropy p → akin p q.
Proof. intros Hp%populated_sound Hq%populated_sound Hdraws. done. Qed.

(** X13: the lookup table is a pure memo for the three estimators: two
    calls with the same arguments and the same draws return the same
    result (or raise the same exception) whatever the earlier calls have
    left in the table. *)
Theorem estimators_ignore_the_table (heroHole villainHole : Card * Card)
    (heroRange villainRange : list RangeHand) (board deck : list Card)
    (iterations : nat) (p q : Process) :
  populated (PRIME_LOOKUP p) → populated (PRIME_LOOKUP q) →
  entropy q = entropy p →
  (calculateHandVsHandEquity heroHole villainHole board iterations p).1
  = (calculateHandVsHandEquity heroHole villainHole board iterations q).1
  ∧ (calculateHandEquity heroHole board iterations p).1
    = (calculateHandEquity heroHole board iterations q).1
  ∧ (equityRangeVsRange heroRange villainRange board deck iterations p).1
    = (equityRangeVsRange heroRange villainRange board deck iterations q).1.
Proof.
  intros Hp Hq Hdraws. pose proof (populated_akin p q Hp Hq Hdraws) as Hpq.
  split; [|split].
  - refine (proj1 (_ p q Hpq)).
    apply transparent_bind; [|intros t; apply transparent_ret].
    apply transparent_for_upto. intros acc.
    apply transparent_bind; [apply transparent_shuffle|]. intros shuffled.
    apply transparent_bind; [apply transparent_evaluate7Perfect|]. intros h.
    apply transparent_bind; [apply transparent_evaluate7Perfect|]. intros v.
    apply transparent_ret.
  - refine (proj1 (_ p q Hpq)).
    apply transparent_bind; [|intros t; apply transparent_ret].
    apply transparent_for_upto. intros acc.
    apply transparent_bind; [apply transparent_shuffle|]. intros shuffled.
    apply transparent_bind; [apply transparent_evaluate7Perfect|]. intros h.
    apply transparent_bind; [|intros v; apply transparent_ret].
    destruct shuffled as [|v0 [|v1 rest]];
      try apply transparent_evaluate7Perfect;
      case_decide; first [apply transparent_throw | apply transparent_ret].
  - refine (proj1 (_ p q Hpq)).
    apply transparent_for_upto. intros acc.
    apply transparent_bind; [apply transparent_Math_random_below|]. intros i.
    apply transparent_bind; [apply transparent_Math_random_below|]. intros j.
    apply transparent_bind; [apply transparent_spread|]. intros heroCards.
    apply transparent_bind; [apply transparent_spread|]. intros villainCards.
    apply transparent_bind; [apply transparent_shuffle|]. intros shuffled.
    apply transparent_bind; [apply transparent_evaluate7Perfect|]. intros h.
    apply transparent_bind; [apply transparent_evaluate7Perfect|]. intros v.
    apply transparent_ret.
Qed.

Lemma estimators_ignore_the_table_witness :
  (calculateHandVsHandEquity ace_king low_hole [] 2 (startup no_draws)).1
  = (calculateHandVsHandEquity ace_king low_hole [] 2
       (after_calls [pair_of_twos; four_cards] (startup no_draws))).1
  ∧ (calculateHandEquity ace_king [] 2 (startup no_draws)).1
    = (calculateHandEquity ace_king [] 2
         (after_calls [pair_of_twos; four_cards] (startup no_draws))).1
  ∧ (equityRangeVsRange [flush_hole] [low_hole] [] FULL_DECK 2
       (startup no_draws)).1
    = (equityRangeVsRange [flush_hole] [low_hole] [] FULL_DECK 2
         (after_calls [pair_of_twos; four_cards] (startup no_draws))).1.
Proof.
  apply estimators_ignore_the_table;
    [exact populated_empty
    |exact (after_calls_populated [pair_of_twos; four_cards]
              (startup no_draws) populated_empty)
    |vm_compute; reflexivity].
Defined.

(* ================================================================= *)
(** ** Hand against hand, as a function of the draws *)

Lemma wp_hvh_tally (heroHole villainHole : Card * Card) (board : list Card)
    (iterations : nat) (p : Process) :
  sound p →
  wp (calculateHandVsHandEquity heroHole villainHole board iterations)
     (post (λ r _, mkTally (heroWin r) (villainWin r) (hvh_tie r)
                   = hvh_tally heroHole villainHole board (entropy p) iterations)
           never) p.
Proof.
  intros Hp. unfold calculateHandVsHandEquity. apply wp_bind. eapply wp_mono.
  - apply (wp_for_upto
      (λ i t p', sound p'
                 ∧ entropy p'
                   = shift_draws (length (hvh_deck heroHole villainHole board))
                       i (entropy p)
                 ∧ t = hvh_tally heroHole villainHole board (entropy p) i)
      never); [|split; [exact Hp | split; reflexivity]].
    intros i t p' _ (Hp' & Hdraws & ->).
    apply wp_bind, wp_shuffle.
    apply wp_bind, wp_evaluate7Perfect; [exact Hp'|]. intros t1 Ht1.
    apply wp_bind, wp_evaluate7Perfect; [exact Ht1|]. intros t2 Ht2.
    apply wp_ret. cbn [post]. split; [exact Ht2|].
    cbn [entropy advance PRIME_LOOKUP]. rewrite Hdraws.
    split; [reflexivity|].
    cbn [hvh_tally]. unfold bump, hvh_trial, hvh_fullBoard, hvh_deck.
    reflexivity.
  - intros [t|e] p' Ht; cbn [post never] in Ht; [|done].
    destruct Ht as (_ & _ & Ht). apply wp_ret. cbn [post].
    cbn [heroWin villainWin hvh_tie]. rewrite <- Ht. by destruct t.
Qed.

Lemma existsb_permutation {A} (f : A → bool) (l l' : list A) :
  l ≡ₚ l' → existsb f l = existsb f l'.
Proof.
  induction 1 as [|x l l' _ IH|x y l|l l' l'' _ IH1 _ IH2]; simpl.
  - done.
  - by rewrite IH.
  - by destruct (f x), (f y).
  - by rewrite IH1.
Qed.

Lemma removeUsed_permutation (deck used used' : list Card) :
  used ≡ₚ used' → removeUsed deck used = removeUsed deck used'.
Proof.
  intros Hperm. unfold removeUsed. apply List.filter_ext. intros c.
  by rewrite (existsb_permutation _ used used').
Qed.

Lemma hvh_deck_swap (heroHole villainHole : Card * Card) (board : list Card) :
  hvh_deck villainHole heroHole board = hvh_deck heroHole villainHole board.
Proof.
  unfold hvh_deck. apply removeUsed_permutation.
  rewrite !app_assoc. apply Permutation_app_tail, Permutation_app_comm.
Qed.

Lemma bump_swap (cmp : Z) (t : Tally) :
  bump (- cmp) (swap_sides t) = swap_sides (bump cmp t).
Proof.
  unfold bump, swap_sides.
  destruct (Z.ltb_spec 0 cmp), (Z.ltb_spec cmp 0), (Z.ltb_spec 0 (- cmp)),
    (Z.ltb_spec (- cmp) 0); try lia; reflexivity.
Qed.

Lemma hvh_tally_swap (heroHole villainHole : Card * Card) (board : list Card)
    (draws : nat → nat) (n : nat) :
  hvh_tally villainHole heroHole board draws n
  = swap_sides (hvh_tally heroHole villainHole board draws n).
Proof.
  induction n as [|n IH]; [done|]. cbn [hvh_tally].
  rewrite IH, <- bump_swap. f_equal.
  unfold hvh_trial, hvh_fullBoard. rewrite hvh_deck_swap.
  unfold compareRanks. lia.
Qed.

(** X14: hand against hand is symmetric in its two sides.  With the same
    draws, and from any populated tables, exchanging the two holdings
    exchanges the hero's and the villain's counters and percentages and
    keeps the ties. *)
Theorem equity_swaps_with_the_sides (heroHole villainHole : Card * Card)
    (board : list Card) (iterations : nat) (p q : Process) :
  populated (PRIME_LOOKUP p) → populated (PRIME_LOOKUP q) →
  entropy q = entropy p →
  ∃ r r',
    (calculateHandVsHandEquity heroHole villainHole board iterations p).1
      = Returned r
    ∧ (calculateHandVsHandEquity villainHole heroHole board iterations q).1
      = Returned r'
    ∧ heroWin r' = villainWin r ∧ villainWin r' = heroWin r
    ∧ hvh_tie r' = hvh_tie r
    ∧ heroPct r' = villainPct r ∧ villainPct r' = heroPct r
    ∧ hvh_tiePct r' = hvh_tiePct r.
Proof.
  intros Hp%populated_sound Hq%populated_sound Hdraws.
  destruct (wp_returned _ _ _
    (wp_hvh_tally heroHole villainHole board iterations p Hp))
    as (r & p1 & E & Hr).
  destruct (wp_returned _ _ _
    (wp_hvh_tally villainHole heroHole board iterations q Hq))
    as (r' & q1 & E' & Hr').
  destruct (wp_returned _ _ _
    (wp_calculateHandVsHandEquity heroHole villainHole board iterations p))
    as (r0 & p0 & E0 & _ & Hh & Hv & Ht).
  destruct (wp_returned _ _ _
    (wp_calculateHandVsHandEquity villainHole heroHole board iterations q))
    as (r0' & q0 & E0' & _ & Hh' & Hv' & Ht').
  rewrite E in E0. rewrite E' in E0'.
  injection E0 as <- _. injection E0' as <- _.
  exists r, r'. rewrite E, E'. split; [done|]. split; [done|].
  rewrite Hdraws, hvh_tally_swap, <- Hr in Hr'.
  unfold swap_sides in Hr'. cbn [first second third] in Hr'.
  injection Hr' as Ea Eb Ec.
  rewrite Hh, Hv, Ht, Hh', Hv', Ht', Ea, Eb, Ec. done.
Qed.

Lemma equity_swaps_with_the_sides_witness :
  ∃ r r',
    (calculateHandVsHandEquity flush_hole low_hole [RQ♠; RJ♠; R9♠] 3
       (startup (λ i, i))).1 = Returned r
    ∧ (calculateHandVsHandEquity low_hole flush_hole [RQ♠; RJ♠; R9♠] 3
         (startup (λ i, i))).1 = Returned r'
    ∧ heroWin r' = villainWin r ∧ villainWin r' = heroWin r
    ∧ hvh_tie r' = hvh_tie r
    ∧ heroPct r' = villainPct r ∧ villainPct r' = heroPct r
    ∧ hvh_tiePct r' = hvh_tiePct r.
Proof.
  apply equity_swaps_with_the_sides;
    [exact populated_empty | exact populated_empty | reflexivity].
Defined.

(* ================================================================= *)
(** ** No trial, an empty range, an exhausted deck *)

Lemma percentage_0_0 : JSNumber.percentage 0 0 = nan.
Proof. vm_compute. reflexivity. Qed.

(** X15: with no iteration the estimators return at once, the process
    untouched: all counters are zero and, the total being zero, the
    percentages of the two hand estimators are [NaN]. *)
Theorem no_trial_no_percentage (heroHole villainHole : Card * Card)
    (heroRange villainRange : list RangeHand) (board deck : list Card)
    (p : Process) :
  calculateHandVsHandEquity heroHole villainHole board 0 p
  = (Returned (mkHandVsHandEquityResult 0 0 0 nan nan nan), p)
  ∧ calculateHandEquity heroHole board 0 p
    = (Returned (mkEquityResult 0 0 0 nan nan nan), p)
  ∧ equityRangeVsRange heroRange villainRange board deck 0 p
    = (Returned (mkRangeEquity 0 0 0), p).
Proof.
  unfold calculateHandVsHandEquity, calculateHandEquity, equityRangeVsRange.
  cbn [for_upto]. unfold mbind, JS_bind, mret, JS_ret.
  cbn [first second third Nat.add]. rewrite percentage_0_0. done.
Qed.

Lemma wp_thrown {A} (m : JS A) (E : Failure → Process → Prop) (p : Process) :
  wp m (post (λ _ _, False) E) p → ∃ e p', m p = (Thrown e, p') ∧ E e p'.
Proof.
  unfold wp. destruct (m p) as [[a|e] p']; simpl; [done | eauto].
Qed.

(** X16: with an empty hero range or an empty villain range, and at least
    one iteration, [equityRangeVsRange] raises a [TypeError] in its first
    trial, before any hand is evaluated: the lookup table is left as it
    was. *)
Theorem empty_range_raises (heroRange villainRange : list RangeHand)
    (board deck : list Card) (iterations : nat) (p : Process) :
  heroRange = [] ∨ villainRange = [] → (0 < iterations)%nat →
  ∃ p',
    equityRangeVsRange heroRange villainRange board deck iterations p
      = (Thrown TypeError, p')
    ∧ PRIME_LOOKUP p' = PRIME_LOOKUP p.
Proof.
  intros Hempty Hn. destruct iterations as [|n]; [lia|].
  unfold equityRangeVsRange. cbn [for_upto].
  match goal with |- ∃ p', ?m p = _ ∧ _ =>
    assert (wp m (post (λ _ _, False)
                       (λ e p', e = TypeError
                                ∧ PRIME_LOOKUP p' = PRIME_LOOKUP p)) p) as Hwp
  end.
  { apply wp_bind.
    apply wp_bind, wp_Math_random_below. intros i Hi.
    apply wp_bind, wp_Math_random_below. intros j Hj.
    destruct (heroRange !! i) as [[h1 h2]|] eqn:Hhero; cbn [spread].
    - destruct (villainRange !! j) as [[v1 v2]|] eqn:Hvillain; cbn [spread].
      + exfalso. destruct Hempty as [-> | ->]; by rewrite lookup_nil in *.
      + apply wp_bind, wp_ret, wp_bind, wp_throw. done.
    - apply wp_bind, wp_throw. done. }
  apply wp_thrown in Hwp as (e & p' & E & -> & Htable). by exists p'.
Qed.

Lemma empty_range_raises_witness :
  ∃ p',
    equityRangeVsRange [] [low_hole] spade_board FULL_DECK 3 (startup no_draws)
      = (Thrown TypeError, p')
    ∧ PRIME_LOOKUP p' = PRIME_LOOKUP (startup no_draws).
Proof. apply empty_range_raises; [by left | lia]. Defined.

(** X17: when fewer than two cards are left once the hero's cards and the
    board are removed from the deck, [calculateHandEquity] cannot deal
    the unknown hand: with at least one iteration it raises a
    [TypeError], in its first trial. *)
Theorem exhausted_deck_raises (heroHole : Card * Card) (board : list Card)
    (iterations : nat) (p : Process) :
  (length (removeUsed FULL_DECK ([heroHole.1; heroHole.2] ++ board)) < 2)%nat →
  (0 < iterations)%nat →
  (calculateHandEquity heroHole board iterations p).1 = Thrown TypeError.
Proof.
  intros Hshort Hn. destruct iterations as [|n]; [lia|].
  unfold calculateHandEquity. cbn [for_upto].
  match goal with |- (?m p).1 = _ =>
    assert (wp m (post (λ _ _, False) (λ e _, e = TypeError)) p) as Hwp
  end.
  { apply wp_bind, wp_bind, wp_bind, wp_shuffle.
    pose proof (length_arrange
      (removeUsed FULL_DECK ([heroHole.1; heroHole.2] ++ board)) (entropy p))
      as Hlen.
    pose proof (removeUsed_length ([heroHole.1; heroHole.2] ++ board)) as Hdeck.
    rewrite length_app in Hdeck. cbn [length] in Hdeck.
    destruct (arrange _ _) as [|v0 [|v1 shuffled]] eqn:Hshuffled;
      [| |cbn [length] in Hlen; lia];
      apply wp_bind, wp_evaluate7Perfect_any; intros heroRank t1;
      apply wp_bind; (case_decide as Hfive;
        [by apply wp_throw | rewrite length_app in Hfive; lia]). }
  apply wp_thrown in Hwp as (e & p' & -> & ->). done.
Qed.

Lemma exhausted_deck_raises_witness :
  (calculateHandEquity ace_king FULL_DECK 2 (startup no_draws)).1
  = Thrown TypeError.
Proof. apply exhausted_deck_raises; vm_compute; lia. Defined.

(* ================================================================= *)
(** ** The cards of a trial *)

Lemma slice_take_drop {A} (arr : list A) (a b : nat) :
  (a ≤ b)%nat → (b ≤ length arr)%nat →
  JSArray.slice arr (Z.of_nat a) (Z.of_nat b) = take (b - a) (drop a arr).
Proof.
  intros Hab Hb. unfold JSArray.slice, JSArray.relative.
  destruct (Z.ltb_spec (Z.of_nat a) 0), (Z.ltb_spec (Z.of_nat b) 0); try lia.
  rewrite !Z.min_l, Z.max_l by lia. rewrite Nat2Z.id. f_equal. lia.
Qed.

Lemma removeUsed_NoDup (deck used : list Card) :
  NoDup deck → NoDup (removeUsed deck used).
Proof.
  intros Hdeck. apply NoDup_ListNoDup, List.NoDup_filter.
  by apply NoDup_ListNoDup.
Qed.

(** Cards taken from the top of the shuffled rest of the deck are
    distinct, and none of them is a used card. *)
Lemma dealt_distinct (used shuffled : list Card) (k : nat) :
  shuffled ≡ₚ removeUsed FULL_DECK used → NoDup used →
  NoDup (used ++ take k shuffled).
Proof.
  intros Hperm Hused. apply NoDup_app. split; [exact Hused|]. split.
  - intros c Hc Hin. apply elem_of_sublist with (l2 := shuffled) in Hin;
      [|apply sublist_take].
    rewrite Hperm in Hin. by apply removeUsed_elem in Hin as [_ Hin].
  - apply (sublist_NoDup (take k shuffled) shuffled); [|apply sublist_take].
    rewrite Hperm.
    apply removeUsed_NoDup, NoDup_ListNoDup, FULL_DECK_NoDup.
Qed.

Lemma bump_positions (a b : RankClass) (t : Tally) :
  bump (compareRanks a b) t
  = if JSArray.indexOf RANK_ORDER b <? JSArray.indexOf RANK_ORDER a
    then mkTally (S (first t)) (second t) (third t)
    else if JSArray.indexOf RANK_ORDER a <? JSArray.indexOf RANK_ORDER b
    then mkTally (first t) (S (second t)) (third t)
    else mkTally (first t) (second t) (S (third t)).
Proof.
  unfold bump, compareRanks.
  generalize (JSArray.indexOf RANK_ORDER a), (JSArray.indexOf RANK_ORDER b).
  intros x y.
  destruct (Z.ltb_spec 0 (x - y)), (Z.ltb_spec (x - y) 0), (Z.ltb_spec y x),
    (Z.ltb_spec x y); try lia; reflexivity.
Qed.

Lemma field_deck_length (heroHole : Card * Card) (board : list Card) :
  (length board ≤ 5)%nat → (45 ≤ length (field_deck heroHole board))%nat.
Proof.
  intros Hboard. unfold field_deck.
  pose proof (removeUsed_length ([heroHole.1; heroHole.2] ++ board)) as Hdeck.
  rewrite length_app in Hdeck. cbn [length] in Hdeck. lia.
Qed.

Lemma wp_field_tally (heroHole : Card * Card) (board : list Card)
    (iterations : nat) (p : Process) :
  (length board ≤ 5)%nat → sound p →
  wp (calculateHandEquity heroHole board iterations)
     (post (λ r _, mkTally (win r) (lose r) (tie r)
                   = field_tally heroHole board (entropy p) iterations)
           never) p.
Proof.
  intros Hboard Hp. pose proof (field_deck_length heroHole board Hboard) as Hdeck.
  unfold calculateHandEquity. apply wp_bind. eapply wp_mono.
  - apply (wp_for_upto
      (λ i t p', sound p'
                 ∧ entropy p'
                   = shift_draws (length (field_deck heroHole board)) i (entropy p)
                 ∧ t = field_tally heroHole board (entropy p) i)
      never); [|split; [exact Hp | split; reflexivity]].
    intros i t p' _ (Hp' & Hdraws & ->).
    apply wp_bind, wp_shuffle. cbn [field_tally].
    unfold field_trial, field_villain, field_fullBoard.
    fold (field_deck heroHole board). rewrite Hdraws.
    pose proof (length_arrange (field_deck heroHole board)
      (shift_draws (length (field_deck heroHole board)) i (entropy p))) as Hlen.
    destruct (arrange _ (field_deck heroHole board))
      as [|v0 [|v1 shuffled]] eqn:Hshuffled;
      [cbn [length] in Hlen; lia | cbn [length] in Hlen; lia |].
    apply wp_bind, wp_evaluate7Perfect; [exact Hp'|]. intros t1 Ht1.
    apply wp_bind, wp_evaluate7Perfect; [exact Ht1|]. intros t2 Ht2.
    apply wp_ret. cbn [post]. split; [exact Ht2|].
    cbn [entropy advance PRIME_LOOKUP]. rewrite Hdraws.
    split; [reflexivity|].
    rewrite bump_positions. reflexivity.
  - intros [t|e] p' Ht; cbn [post never] in Ht; [|done].
    destruct Ht as (_ & _ & Ht). apply wp_ret. cbn [post].
    cbn [win lose tie]. rewrite <- Ht. by destruct t.
Qed.

(** X18: against an unknown hand with at most five board cards, every
    trial deals for real: the unknown hand is two cards, the board is
    completed to five, and with distinct hero and board cards the nine
    cards of the trial are distinct.  From a populated table the counters
    returned are those of the comparisons of the two seven-card hands so
    dealt. *)
Theorem unknown_hand_is_dealt_from_the_rest (heroHole : Card * Card)
    (board : list Card) (iterations : nat) (p : Process) :
  NoDup ([heroHole.1; heroHole.2] ++ board) → (length board ≤ 5)%nat →
  populated (PRIME_LOOKUP p) →
  (∃ r, (calculateHandEquity heroHole board iterations p).1 = Returned r
        ∧ mkTally (win r) (lose r) (tie r)
          = field_tally heroHole board (entropy p) iterations)
  ∧ ∀ draws,
      length (field_villain heroHole board draws) = 2%nat
      ∧ length (field_fullBoard heroHole board draws) = 5%nat
      ∧ NoDup ([heroHole.1; heroHole.2] ++ field_villain heroHole board draws
               ++ field_fullBoard heroHole board draws).
Proof.
  intros Hused Hboard Hp%populated_sound. split.
  { destruct (wp_returned _ _ _
      (wp_field_tally heroHole board iterations p Hboard Hp))
      as (r & p' & E & Hr).
    exists r. by rewrite E. }
  intros draws.
  pose proof (field_deck_length heroHole board Hboard) as Hdeck.
  pose proof (length_arrange (field_deck heroHole board) draws) as Hlen.
  pose proof (arrange_permutation (field_deck heroHole board) draws) as Hperm.
  unfold field_villain, field_fullBoard.
  replace (2 + (5 - Z.of_nat (length board)))
    with (Z.of_nat (2 + (5 - length board))) by lia.
  rewrite (slice_take_drop _ 2) by lia.
  replace (2 + (5 - length board) - 2)%nat with (5 - length board)%nat by lia.
  generalize dependent (arrange draws (field_deck heroHole board)).
  intros shuffled Hlen Hperm.
  split; [rewrite length_take; lia|].
  split; [rewrite length_app, length_take, length_drop; lia|].
  assert ([heroHole.1; heroHole.2] ++ take 2 shuffled
            ++ board ++ take (5 - length board) (drop 2 shuffled)
          ≡ₚ ([heroHole.1; heroHole.2] ++ board)
             ++ take (2 + (5 - length board)) shuffled) as ->.
  { rewrite <- take_take_drop, <- !app_assoc. apply Permutation_app_head.
    rewrite !app_assoc. apply Permutation_app_tail, Permutation_app_comm. }
  by apply dealt_distinct.
Qed.

Lemma unknown_hand_is_dealt_from_the_rest_witness :
  (∃ r, (calculateHandEquity ace_king [RQ♠; RJ♠; R9♠] 2
           (startup no_draws)).1 = Returned r
        ∧ mkTally (win r) (lose r) (tie r)
          = field_tally ace_king [RQ♠; RJ♠; R9♠]
              (entropy (startup no_draws)) 2)
  ∧ ∀ draws,
      length (field_villain ace_king [RQ♠; RJ♠; R9♠] draws) = 2%nat
      ∧ length (field_fullBoard ace_king [RQ♠; RJ♠; R9♠] draws) = 5%nat
      ∧ NoDup ([ace_king.1; ace_king.2]
               ++ field_villain ace_king [RQ♠; RJ♠; R9♠] draws
               ++ field_fullBoard ace_king [RQ♠; RJ♠; R9♠] draws).
Proof.
  apply unknown_hand_is_dealt_from_the_rest;
    [apply (bool_decide_unpack _); vm_compute; exact I
    |vm_compute; lia
    |exact populated_empty].
Defined.

Lemma hvh_deck_length (heroHole villainHole : Card * Card) (board : list Card) :
  (length board ≤ 5)%nat →
  (43 ≤ length (hvh_deck heroHole villainHole board))%nat.
Proof.
  intros Hboard. unfold hvh_deck.
  pose proof (removeUsed_length
    ([heroHole.1; heroHole.2] ++ [villainHole.1; villainHole.2] ++ board))
    as Hdeck.
  rewrite !length_app in Hdeck. cbn [length] in Hdeck. lia.
Qed.

(** X19: hand against hand with at most five board cards: every trial
    completes the board to exactly five cards, and with distinct
    holdings and board cards the nine cards of the trial are distinct.
    From a populated table the counters returned are those of the
    comparisons of the two seven-card hands so made. *)
Theorem board_is_completed_from_the_rest (heroHole villainHole : Card * Card)
    (board : list Card) (iterations : nat) (p : Process) :
  NoDup ([heroHole.1; heroHole.2] ++ [villainHole.1; villainHole.2] ++ board) →
  (length board ≤ 5)%nat → populated (PRIME_LOOKUP p) →
  (∃ r, (calculateHandVsHandEquity heroHole villainHole board iterations p).1
          = Returned r
        ∧ mkTally (heroWin r) (villainWin r) (hvh_tie r)
          = hvh_tally heroHole villainHole board (entropy p) iterations)
  ∧ ∀ draws,
      length (hvh_fullBoard heroHole villainHole board draws) = 5%nat
      ∧ NoDup ([heroHole.1; heroHole.2] ++ [villainHole.1; villainHole.2]
               ++ hvh_fullBoard heroHole villainHole board draws).
Proof.
  intros Hused Hboard Hp%populated_sound. split.
  { destruct (wp_returned _ _ _
      (wp_hvh_tally heroHole villainHole board iterations p Hp))
      as (r & p' & E & Hr).
    exists r. by rewrite E. }
  intros draws.
  pose proof (hvh_deck_length heroHole villainHole board Hboard) as Hdeck.
  pose proof (length_arrange (hvh_deck heroHole villainHole board) draws) as Hlen.
  pose proof (arrange_permutation (hvh_deck heroHole villainHole board) draws)
    as Hperm.
  unfold hvh_fullBoard.
  replace (5 - Z.of_nat (length board)) with (Z.of_nat (5 - length board)) by lia.
  rewrite (slice_take_drop _ 0) by lia.
  rewrite drop_0, Nat.sub_0_r.
  generalize dependent (arrange draws (hvh_deck heroHole villainHole board)).
  intros shuffled Hlen Hperm.
  split; [rewrite length_app, length_take; lia|].
  rewrite !app_assoc. rewrite <- !app_assoc.
  replace ([heroHole.1; heroHole.2] ++ [villainHole.1; villainHole.2]
           ++ board ++ take (5 - length board) shuffled)
    with (([heroHole.1; heroHole.2] ++ [villainHole.1; villainHole.2] ++ board)
          ++ take (5 - length board) shuffled)
    by by rewrite <- !app_assoc.
  by apply dealt_distinct.
Qed.

Lemma board_is_completed_from_the_rest_witness :
  (∃ r, (calculateHandVsHandEquity flush_hole low_hole [RQ♠; RJ♠; R9♠] 2
           (startup no_draws)).1 = Returned r
        ∧ mkTally (heroWin r) (villainWin r) (hvh_tie r)
          = hvh_tally flush_hole low_hole [RQ♠; RJ♠; R9♠]
              (entropy (startup no_draws)) 2)
  ∧ ∀ draws,
      length (hvh_fullBoard flush_hole low_hole [RQ♠; RJ♠; R9♠] draws) = 5%nat
      ∧ NoDup ([flush_hole.1; flush_hole.2] ++ [low_hole.1; low_hole.2]
               ++ hvh_fullBoard flush_hole low_hole [RQ♠; RJ♠; R9♠] draws).
Proof.
  apply board_is_completed_from_the_rest;
    [apply (bool_decide_unpack _); vm_compute; exact I
    |vm_compute; lia
    |exact populated_empty].
Defined.

(** X20: a board of more than five cards is neither rejected nor cut: the
    negative count makes [slice] drop cards from the end of the shuffled
    deck, so each trial adds the whole rest of the deck but its last
    [length board - 5] cards to the board (nothing when the deck is that
    short), and from a populated table the counters returned are those
    of the comparisons of the two hands so made. *)
Theorem long_board_takes_the_deck (heroHole villainHole : Card * Card)
    (board : list Card) (iterations : nat) (p : Process) :
  (5 < length board)%nat → populated (PRIME_LOOKUP p) →
  (∃ r, (calculateHandVsHandEquity heroHole villainHole board iterations p).1
          = Returned r
        ∧ mkTally (heroWin r) (villainWin r) (hvh_tie r)
          = hvh_tally heroHole villainHole board (entropy p) iterations)
  ∧ ∀ draws,
      hvh_fullBoard heroHole villainHole board draws
      = board ++ take (length (hvh_deck heroHole villainHole board)
                       - (length board - 5))
                   (arrange draws (hvh_deck heroHole villainHole board)).
Proof.
  intros Hboard Hp%populated_sound. split.
  { destruct (wp_returned _ _ _
      (wp_hvh_tally heroHole villainHole board iterations p Hp))
      as (r & p' & E & Hr).
    exists r. by rewrite E. }
  intros draws. unfold hvh_fullBoard. f_equal.
  pose proof (length_arrange (hvh_deck heroHole villainHole board) draws) as Hlen.
  generalize dependent (arrange draws (hvh_deck heroHole villainHole board)).
  generalize (length (hvh_deck heroHole villainHole board)).
  intros d shuffled Hlen. unfold JSArray.slice, JSArray.relative.
  destruct (Z.ltb_spec 0 0); [lia|].
  destruct (Z.ltb_spec (5 - Z.of_nat (length board)) 0); [|lia].
  rewrite Z.min_l by lia. cbn [Z.to_nat drop]. f_equal. lia.
Qed.

Lemma long_board_takes_the_deck_witness :
  (∃ r, (calculateHandVsHandEquity flush_hole low_hole six_board 0
           (startup no_draws)).1 = Returned r
        ∧ mkTally (heroWin r) (villainWin r) (hvh_tie r)
          = hvh_tally flush_hole low_hole six_board
              (entropy (startup no_draws)) 0)
  ∧ ∀ draws,
      hvh_fullBoard flush_hole low_hole six_board draws
      = six_board ++ take (length (hvh_deck flush_hole low_hole six_board)
                           - (length six_board - 5))
                       (arrange draws (hvh_deck flush_hole low_hole six_board)).
Proof.
  apply long_board_takes_the_deck; [vm_compute; lia | exact populated_empty].
Defined.

(* ================================================================= *)
(** ** The heatmap *)

Lemma below_13 (P : nat → Prop) :
  Forall P (seq 0 13) → ∀ n, (n < 13)%nat → P n.
Proof.
  intros Hall n Hn. rewrite Forall_forall in Hall.
  apply Hall, list_elem_of_In, in_seq. lia.
Qed.

(** X21: the heatmap is a grid of 13 rows of 13 cells, the row and the
    column running from the ace down to the deuce; each cell lies
    between 0 and 1; the bonus for suited hands goes to the cells below
    the diagonal, each of which is above its mirror image; and the
    largest cell is not the pair of aces (0.8) but its neighbour in the
    row of the king (0.833). *)
Theorem heatmap_shape :
  length Heatmap.generatePreflopHeatmap = 13%nat
  ∧ Forall (λ row, length row = 13%nat) Heatmap.generatePreflopHeatmap
  ∧ (∀ a b, (a < 13)%nat → (b < 13)%nat →
       Heatmap.generatePreflopHeatmap !! a ≫= (.!! b)
       = Some (Heatmap.cell (12 - a) (12 - b)))
  ∧ (∀ i j, (i < 13)%nat → (j < 13)%nat →
       PrimFloat.leb 0 (Heatmap.cell i j) = true
       ∧ PrimFloat.leb (Heatmap.cell i j) (Heatmap.cell 11 12) = true
       ∧ PrimFloat.leb (Heatmap.cell 11 12) 1 = true
       ∧ ((i < j)%nat →
          PrimFloat.ltb (Heatmap.cell j i) (Heatmap.cell i j) = true))
  ∧ Heatmap.cell 12 12 = (800 / 1000)%float
  ∧ Heatmap.cell 11 12 = (833 / 1000)%float.
Proof.
  split; [reflexivity|].
  split; [by vm_compute; repeat constructor|].
  split; [|split; [|split; vm_compute; reflexivity]].
  - intros a b Ha Hb. revert a Ha b Hb.
    refine (below_13 _ _).
    repeat (apply Forall_cons; split;
      [refine (below_13 _ _);
       repeat (apply Forall_cons; split; [reflexivity|]);
       apply Forall_nil_2|]).
    apply Forall_nil_2.
  - intros i j Hi Hj. revert i Hi j Hj.
    refine (below_13 _ _).
    repeat (apply Forall_cons; split;
      [refine (below_13 _ _);
       repeat (apply Forall_cons; split;
         [split; [vm_compute; reflexivity|];
          split; [vm_compute; reflexivity|];
          split; [vm_compute; reflexivity|];
          intros Hij; first [vm_compute; reflexivity | exfalso; lia] |]);
       apply Forall_nil_2|]).
    apply Forall_nil_2.
Qed.
